(** * Insurance Policy Query Assistant: retrieval policy and dialogue loop

    A shallow embedding of [utils.py] (record-store construction and the
    strict policy-ID retriever), of the chat loop of [chatbot.py] and of
    [dataset_generator.py], together with the properties the
    specification states about them.

    Modelling conventions.
    - A Python [str] is a sequence of Unicode code points; it is modelled
      by the Rocq [string] of the bytes of its UTF-8 encoding (a lone
      surrogate, which a [str] may hold, by the three bytes of the same
      scheme).  Two [str] are equal exactly when their encodings are, so
      dictionary keys and [==] are as in Python.  An ASCII character is
      one byte below 128 and no byte of another character is below 128,
      so a literal of ASCII characters matches at a byte offset exactly
      where it matches in the [str]; offsets are counted in bytes.
    - The regex class [\d] of a [str] pattern is every character of the
      Unicode category Nd (decimal digit), not the ten ASCII digits only:
      [leading_digit] decodes the character at the head of the text and
      looks it up.  The ASCII digits are fixed; which other code points
      are decimal digits depends on the Unicode version of the
      interpreter and is the parameter [UnicodeData] of the model.
      [unicode_14] is the table of Unicode 14.0 (CPython 3.11).
    - [str.upper] and [str.lower] are modelled on the ASCII letters, the
      other bytes being kept.  This gives the same result wherever the
      code uses them: Python maps no other character to a string with
      [P], [O] or a decimal digit in it, maps a decimal digit to itself,
      yields an [L] only in [FL] and [FFL] (from the ligatures U+FB02 and
      U+FB04), where it follows [F], and lower-cases no other character
      to a string of letters of [exit] or [quit] (U+0130 gives [i]
      followed by U+0307, U+212A gives [k]); so the pattern
      [POL\d{3}] matches [query.upper()] exactly where it matches here,
      with the same text, and [user_query.lower()] is a keyword exactly
      when it is here.
    - A Python [dict] keyed by strings is a [gmap string _].
    - [print] appends a line to an output log that every function
      returns next to its value.
    - External collaborators (the CSV loader, the language model, the
      vector store, the random source) are parameters of the functions
      that receive them. *)

From Stdlib Require Import Ascii String NArith.
From stdpp Require Import base option list gmap strings pretty.

Local Open Scope string_scope.

(** ** Characters and case mapping *)

(** One of the ten ASCII digits. *)
Definition is_ascii_digit (c : ascii) : bool :=
  let n := N_of_ascii c in (48 <=? n)%N && (n <=? 57)%N.

Definition is_ascii_lower (c : ascii) : bool :=
  let n := N_of_ascii c in (97 <=? n)%N && (n <=? 122)%N.

Definition is_ascii_upper (c : ascii) : bool :=
  let n := N_of_ascii c in (65 <=? n)%N && (n <=? 90)%N.

Definition upper_char (c : ascii) : ascii :=
  if is_ascii_lower c then ascii_of_N (N_of_ascii c - 32) else c.

Definition lower_char (c : ascii) : ascii :=
  if is_ascii_upper c then ascii_of_N (N_of_ascii c + 32) else c.

(** [str.upper()] *)
Fixpoint upper (s : string) : string :=
  match s with
  | EmptyString => EmptyString
  | String c s' => String (upper_char c) (upper s')
  end.

(** [str.lower()] *)
Fixpoint lower (s : string) : string :=
  match s with
  | EmptyString => EmptyString
  | String c s' => String (lower_char c) (lower s')
  end.

(** ** Characters of a text in UTF-8 *)

(** The bytes of a code point: one byte below 128, otherwise a lead byte
    and one to three continuation bytes of six bits each. *)
Definition utf8_encode (cp : N) : string :=
  let tail (n : N) := ascii_of_N (128 + n mod 64) in
  if (cp <? 128)%N then String (ascii_of_N cp) EmptyString
  else if (cp <? 2048)%N then
    String (ascii_of_N (192 + cp / 64)) (String (tail cp) EmptyString)
  else if (cp <? 65536)%N then
    String (ascii_of_N (224 + cp / 64 / 64))
      (String (tail (cp / 64)%N) (String (tail cp) EmptyString))
  else
    String (ascii_of_N (240 + cp / 64 / 64 / 64))
      (String (tail (cp / 64 / 64)%N)
         (String (tail (cp / 64)%N) (String (tail cp) EmptyString))).

(** The text that stands for the [str] of the given code points. *)
Definition utf8_text (cps : list N) : string :=
  foldr (λ cp s, utf8_encode cp +:+ s) EmptyString cps.

(** The six payload bits of a continuation byte [10xxxxxx]. *)
Definition continuation_byte (c : ascii) : option N :=
  let n := N_of_ascii c in
  if (128 <=? n)%N && (n <? 192)%N then Some (n - 128)%N else None.

(** [n] continuation bytes at the head of [s]: the code point they
    complete [acc] to, the bytes, and what follows them. *)
Fixpoint utf8_tail (n : nat) (acc : N) (s : string)
  : option (N * string * string) :=
  match n with
  | O => Some (acc, EmptyString, s)
  | S n' =>
      match s with
      | EmptyString => None
      | String b s' =>
          x ← continuation_byte b;
          '(cp, bs, rest) ← utf8_tail n' (acc * 64 + x)%N s';
          Some (cp, String b bs, rest)
      end
  end.

(** The lead byte of a character of two, three or four bytes: the number
    of continuation bytes, the payload of the lead, and the least code
    point that takes this many bytes. *)
Definition utf8_lead (c : ascii) : option (nat * N * N) :=
  let n := N_of_ascii c in
  if (n <? 194)%N then None
  else if (n <? 224)%N then Some (1, (n - 192)%N, 128%N)
  else if (n <? 240)%N then Some (2, (n - 224)%N, 2048%N)
  else if (n <? 245)%N then Some (3, (n - 240)%N, 65536%N)
  else None.

(** The first character of a text: its code point, its bytes, and the
    rest of the text. *)
Definition utf8_head (s : string) : option (N * string * string) :=
  match s with
  | EmptyString => None
  | String b s' =>
      if (N_of_ascii b <? 128)%N then
        Some (N_of_ascii b, String b EmptyString, s')
      else
        '(n, payload, least) ← utf8_lead b;
        '(cp, bs, rest) ← utf8_tail n payload s';
        if (least <=? cp)%N && (cp <? 1114112)%N
        then Some (cp, String b bs, rest)
        else None
  end.

(** ** Decimal digits *)

(** The code points of category Nd above the ASCII range, as the
    Unicode database of the interpreter has them. *)
Class UnicodeData := { non_ascii_decimal : N → bool }.

(** Unicode 14.0: every decimal digit above the ASCII range belongs to a
    run of ten consecutive code points, zero to nine; these are the
    zeros. *)
Definition unicode_14_zeros : list N :=
  [1632; 1776; 1984; 2406; 2534; 2662; 2790; 2918; 3046; 3174; 3302;
   3430; 3558; 3664; 3792; 3872; 4160; 4240; 6112; 6160; 6470; 6608;
   6784; 6800; 6992; 7088; 7232; 7248; 42528; 43216; 43264; 43472;
   43504; 43600; 44016; 65296; 66720; 68912; 69734; 69872; 69942;
   70096; 70384; 70736; 70864; 71248; 71360; 71472; 71904; 72016;
   72784; 73040; 73120; 92768; 92864; 93008; 120782; 120792; 120802;
   120812; 120822; 123200; 123632; 125264; 130032]%N.

Definition unicode_14 : UnicodeData :=
  {| non_ascii_decimal cp :=
       existsb (λ zero, (zero <=? cp)%N && (cp <? zero + 10)%N)
         unicode_14_zeros |}.

Section Model.

Context `{UnicodeData}.

(** The code point is a decimal digit: what [\d] matches. *)
Definition decimal_digit (cp : N) : bool :=
  if (cp <? 128)%N then (48 <=? cp)%N && (cp <=? 57)%N
  else non_ascii_decimal cp.

(** A decimal digit at the head of the text: its bytes and the rest of
    the text. *)
Definition leading_digit (s : string) : option (string * string) :=
  '(cp, d, rest) ← utf8_head s;
  if decimal_digit cp then Some (d, rest) else None.

(** ** The two regular expressions of [utils.py]

    Both patterns are a literal followed by a run of digits, so an
    anchored matcher is a literal comparison followed by a digit scan;
    [re_search] is the left-to-right scan of [re.search], which tries the
    anchored matcher at every start position and keeps the first
    success. *)

(** Anchored match of a literal: what is left of the subject after it. *)
Fixpoint match_literal (lit s : string) : option string :=
  match lit with
  | EmptyString => Some s
  | String c lit' =>
      match s with
      | EmptyString => None
      | String d s' => if Ascii.eqb c d then match_literal lit' s' else None
      end
  end.

(** Anchored match of [\d{n}]: the [n] digits consumed. *)
Fixpoint match_digits (n : nat) (s : string) : option string :=
  match n with
  | O => Some EmptyString
  | S n' =>
      '(d, rest) ← leading_digit s;
      ds ← match_digits n' rest;
      Some (d +:+ ds)
  end.

(** The digits a greedy [\d*] consumes at the start of the subject, at
    most [fuel] of them. *)
Fixpoint span_digits_upto (fuel : nat) (s : string) : string :=
  match fuel with
  | O => EmptyString
  | S fuel' =>
      match leading_digit s with
      | Some (d, rest) => d +:+ span_digits_upto fuel' rest
      | None => EmptyString
      end
  end.

(** The digits a greedy [\d*] consumes at the start of the subject: a
    text has no more digits than bytes. *)
Definition span_digits (s : string) : string :=
  span_digits_upto (String.length s) s.

(** [r"POL\d{3}"] anchored at the start of the subject; the value is
    [group(0)]. *)
Definition match_POL_d3 (s : string) : option string :=
  rest ← match_literal "POL" s;
  ds ← match_digits 3 rest;
  Some ("POL" +:+ ds).

(** [r"policy_id: (POL\d+)"] anchored at the start of the subject; the
    value is [group(1)].  Nothing follows the greedy [\d+], so it takes
    every digit available and never backtracks. *)
Definition match_policy_id_field (s : string) : option string :=
  rest ← match_literal "policy_id: POL" s;
  match span_digits rest with
  | EmptyString => None
  | ds => Some ("POL" +:+ ds)
  end.

(** [re.search]: the first start position at which the anchored matcher
    succeeds (the empty suffix is tried last, as in Python). *)
Fixpoint re_search (matcher : string → option string) (s : string)
  : option string :=
  match matcher s with
  | Some m => Some m
  | None =>
      match s with
      | EmptyString => None
      | String _ s' => re_search matcher s'
      end
  end.

(** [re.search(r"POL\d{3}", query.upper())], then [group(0)]
    (utils.py, lines 75 and 78). *)
Definition policy_id_match (query : string) : option string :=
  re_search match_POL_d3 (upper query).

(** ** Documents and the record store ([utils.py]) *)

(** A [langchain_core.documents.Document] as the CSV loader yields it:
    the serialized row and its metadata mapping. *)
Record Document := mkDocument {
  page_content : string;
  metadata : list (string * string)
}.

(** The Chroma vector store, seen through its query interface. *)
Record VectorStore := mkVectorStore {
  similarity_search : string → list Document
}.

(** The part of the environment [load_and_prepare_data] reads:
    [os.path.exists] and the rows [CSVLoader(file_path).load()] yields. *)
Record FileSystem := mkFileSystem {
  path_exists : string → bool;
  csv_rows : string → list Document
}.

(** A call either returns a value or ends the process through [exit()]. *)
Inductive Result (A : Type) : Type :=
| Returned (a : A)
| SystemExit.
#[global] Arguments Returned {A} a.
#[global] Arguments SystemExit {A}.

(** Lines 32-34: [re.search(r"policy_id: (POL\d+)", doc.page_content)]
    and, on a match, [match.group(1)]. *)
Definition policy_id_of (doc : Document) : option string :=
  re_search match_policy_id_field (page_content doc).

(** One iteration of the loop of lines 31-35:
    [policy_dict[policy_id] = doc] when the pattern is found. *)
Definition policy_dict_step (policy_dict : gmap string Document)
    (doc : Document) : gmap string Document :=
  match policy_id_of doc with
  | Some policy_id => <[policy_id := doc]> policy_dict
  | None => policy_dict
  end.

Definition build_policy_dict (documents : list Document)
  : gmap string Document :=
  foldl policy_dict_step ∅ documents.

(** [load_and_prepare_data(csv_path)]: the returned pair (or [exit()])
    and the lines printed. *)
Definition load_and_prepare_data (fs : FileSystem) (csv_path : string)
  : Result (list Document * gmap string Document) * list string :=
  if negb (path_exists fs csv_path) then
    (SystemExit, ["Error: CSV file not found at " +:+ csv_path])
  else
    let documents := csv_rows fs csv_path in
    let policy_dict := build_policy_dict documents in
    (Returned (documents, policy_dict),
     ["Loading insurance policy data from CSV...";
      "Successfully loaded " +:+ pretty (length documents)
        +:+ " policy documents.";
      "Created dictionary for " +:+ pretty (size policy_dict)
        +:+ " unique policy IDs."]).

(** ** The strict retriever ([utils.py], lines 69-88) *)

(** The closure [_custom_retriever_logic]; of the two variables of the
    enclosing call it reads [policy_lookup_dict] only.  The value is the
    returned list and the line printed. *)
Definition _custom_retriever_logic (policy_lookup_dict : gmap string Document)
    (query : string) : list Document * list string :=
  match policy_id_match query with
  | Some extracted_policy_id =>
      match policy_lookup_dict !! extracted_policy_id with
      | Some doc =>
          ([doc],
           ["[Retrieval]: Directly retrieved policy: " +:+ extracted_policy_id])
      | None =>
          ([],
           ["[Retrieval]: Policy ID '" +:+ extracted_policy_id
              +:+ "' not found. No document retrieval from vectorstore."])
      end
  | None =>
      ([],
       ["[Retrieval]: No specific policy ID found in query. No document retrieval from vectorstore."])
  end.

Definition get_custom_retriever_function (vectorstore : VectorStore)
    (policy_lookup_dict : gmap string Document)
  : string → list Document * list string :=
  _custom_retriever_logic policy_lookup_dict.

(** The documents the retriever hands back: the specification's
    [resolve]. *)
Definition resolve (vectorstore : VectorStore)
    (store : gmap string Document) (query : string) : list Document :=
  (get_custom_retriever_function vectorstore store query).1.

(** ** The dialogue loop ([chatbot.py], lines 137-156) *)

Inductive Message : Type :=
| HumanMessage (content : string)
| AIMessage (content : string).

(** What a session does, in order: lines read, lines printed, and the
    calls made to the three steps of the chain with what they gave back
    ([None] when the call raised). *)
Inductive Event : Type :=
| EvInput (line : string)
| EvPrint (text : string)
| EvRewrite (chat_history : list Message) (input : string)
    (standalone : option string)
| EvRetrieve (query : string) (docs : list Document)
| EvGenerate (context : list Document) (chat_history : list Message)
    (input : string) (answer : option string).

(** How the [while True] loop is left: [break], [input] raising at end
    of input, or an exception of the chain, which nothing catches. *)
Inductive Outcome : Type := Closed | EOFError | ChainError.

Record Session := mkSession {
  outcome : Outcome;
  final_history : list Message;
  trace : list Event
}.

Section Chatbot.

(** The module-level values the loop closes over. *)
Variable policy_id_dict : gmap string Document.
Variable vector_store : VectorStore.

(** The language model behind the two chains: the standalone search
    query the history-aware front hands to the retriever, and the answer
    produced from context, history and input.  [None] is a call that
    raised. *)
Variable llm_standalone_query : list Message → string → option string.
Variable llm_answer :
  list Document → list Message → string → option string.

(** [conversational_retrieval_chain.invoke({"input": ..., "chat_history": ...})]:
    rewrite, retrieve, generate; the value is [response["answer"]]. *)
Definition conversational_retrieval_chain_invoke (input : string)
    (chat_history : list Message) : list Event * option string :=
  let standalone := llm_standalone_query chat_history input in
  match standalone with
  | None => ([EvRewrite chat_history input standalone], None)
  | Some query =>
      let '(docs, log) :=
        get_custom_retriever_function vector_store policy_id_dict query in
      let answer := llm_answer docs chat_history input in
      (([EvRewrite chat_history input standalone; EvRetrieve query docs]
          ++ (EvPrint <$> log)
          ++ [EvGenerate docs chat_history input answer])%list,
       answer)
  end.

(** The loop, run on the lines the console will supply. *)
Fixpoint chat_loop (inputs : list string) (chat_history : list Message)
  : Session :=
  match inputs with
  | [] => mkSession EOFError chat_history []
  | user_query :: inputs' =>
      if bool_decide (lower user_query ∈ ["exit"; "quit"]) then
        mkSession Closed chat_history
          [EvInput user_query; EvPrint "[Chatbot]: Goodbye!"]
      else
        match conversational_retrieval_chain_invoke user_query chat_history with
        | (events, None) =>
            mkSession ChainError chat_history (EvInput user_query :: events)
        | (events, Some chatbot_response) =>
            let rest :=
              chat_loop inputs'
                (chat_history ++ [HumanMessage user_query;
                                  AIMessage chatbot_response])%list in
            mkSession (outcome rest) (final_history rest)
              (EvInput user_query :: events
                 ++ EvPrint ("[Chatbot]: " +:+ chatbot_response)
                 :: trace rest)%list
        end
  end.

(** Line 137: the session starts from [chat_history = []]. *)
Definition chat_session (inputs : list string) : Session :=
  chat_loop inputs [].

End Chatbot.

(** ** The vocabulary of the specification *)

(** The text from offset [i] on, offsets being counted in bytes. *)
Fixpoint string_drop (i : nat) (s : string) : string :=
  match i, s with
  | O, _ => s
  | S i', String _ s' => string_drop i' s'
  | S _, EmptyString => EmptyString
  end.

(** A token "POL followed by three digits", letters in either case and
    digits of any script, at the head of the text: the token as it is
    written. *)
Definition policy_token (s : string) : option string :=
  match s with
  | String p (String o (String l s3)) =>
      if (Ascii.eqb p "P" || Ascii.eqb p "p")
         && (Ascii.eqb o "O" || Ascii.eqb o "o")
         && (Ascii.eqb l "L" || Ascii.eqb l "l")
      then
        '(d1, s4) ← leading_digit s3;
        '(d2, s5) ← leading_digit s4;
        '(d3, _) ← leading_digit s5;
        Some (String p (String o (String l (d1 +:+ d2 +:+ d3))))
      else None
  | _ => None
  end.

(** The query has such a token at offset [i]. *)
Definition occurs_at (query : string) (i : nat) : bool :=
  match policy_token (string_drop i query) with
  | Some _ => true
  | None => false
  end.

(** Offset [i] is the leftmost one at which a token occurs. *)
Definition first_occurrence (query : string) (i : nat) : Prop :=
  occurs_at query i = true ∧ ∀ j, j < i → occurs_at query j = false.

(** The identifier named by the token at offset [i]. *)
Definition token_at (query : string) (i : nat) : string :=
  upper (default EmptyString (policy_token (string_drop i query))).

(** The text is exactly [n] decimal digits. *)
Fixpoint digits (n : nat) (s : string) : bool :=
  match n with
  | O => bool_decide (s = EmptyString)
  | S n' =>
      match leading_digit s with
      | Some (_, rest) => digits n' rest
      | None => false
      end
  end.

(** The serialized row has the key [policy_id] followed by [POL] and at
    least one decimal digit. *)
Definition has_policy_id_field (text : string) : Prop :=
  ∃ before after,
    text = before +:+ "policy_id: POL" +:+ after
    ∧ is_Some (leading_digit after).

(** The row is malformed: no identifier can be extracted from it. *)
Definition malformed (doc : Document) : Prop :=
  ¬ has_policy_id_field (page_content doc).

(** All characters of the text are ASCII digits. *)
Fixpoint all_ascii_digits (s : string) : bool :=
  match s with
  | EmptyString => true
  | String d s' => is_ascii_digit d && all_ascii_digits s'
  end.

(** The byte is kept by [upper] and [lower] and is no letter: an ASCII
    digit or a byte of a character outside ASCII. *)
Definition caseless_char (c : ascii) : bool :=
  is_ascii_digit c || negb (N_of_ascii c <? 128)%N.

Fixpoint caseless (s : string) : bool :=
  match s with
  | EmptyString => true
  | String c s' => caseless_char c && caseless s'
  end.

(** The byte [c] does not occur in the text. *)
Fixpoint without (c : ascii) (s : string) : bool :=
  match s with
  | EmptyString => true
  | String d s' => negb (Ascii.eqb c d) && without c s'
  end.

(** Two characters are the same up to the case of an ASCII letter. *)
Definition char_eq_nocase (c d : ascii) : bool :=
  Ascii.eqb c d
  || ((is_ascii_lower c || is_ascii_upper c)
      && (is_ascii_lower d || is_ascii_upper d)
      && (N.lxor (N_of_ascii c) (N_of_ascii d) =? 32)%N).

(** Two strings are equal case-insensitively. *)
Fixpoint eq_nocase (a b : string) : bool :=
  match a, b with
  | EmptyString, EmptyString => true
  | String c a', String d b' => char_eq_nocase c d && eq_nocase a' b'
  | _, _ => false
  end.

(** The user input is one of the exit keywords, in any case. *)
Definition exit_keyword (user_query : string) : bool :=
  eq_nocase user_query "exit" || eq_nocase user_query "quit".

(** The conversation made of the given utterances and answers, turn by
    turn. *)
Fixpoint transcript (utterances answers : list string) : list Message :=
  match utterances, answers with
  | u :: us, a :: ans => HumanMessage u :: AIMessage a :: transcript us ans
  | _, _ => []
  end.

(** The answers a session produced, in order. *)
Definition answers_of (tr : list Event) : list string :=
  omap (λ e, match e with EvGenerate _ _ _ (Some a) => Some a | _ => None end) tr.

(** The conversation state each chain invocation was given, in order. *)
Definition histories_seen (tr : list Event) : list (list Message) :=
  omap (λ e, match e with EvRewrite h _ _ => Some h | _ => None end) tr.

(** The event is a call of one of the rewrite, resolve, generate steps. *)
Definition is_chain_call (e : Event) : bool :=
  match e with
  | EvRewrite _ _ _ | EvRetrieve _ _ | EvGenerate _ _ _ _ => true
  | EvInput _ | EvPrint _ => false
  end.

(** ** The vector store on disk ([utils.py], lines 10-11 and 40-66) *)

Definition PERSIST_DIRECTORY : string := "./chroma_db".

(** [GoogleGenerativeAIEmbeddings(model=...)]. *)
Record Embeddings := mkEmbeddings {
  embedding_model : string
}.

(** What the vector-store functions reach outside the program:
    [os.listdir], [Chroma(persist_directory=..., embedding_function=...)]
    and [Chroma.from_documents(documents, embeddings, persist_directory=...)]. *)
Record Platform := mkPlatform {
  listdir : string → list string;
  chroma_open : string → Embeddings → VectorStore;
  chroma_from_documents :
    list Document → Embeddings → string → VectorStore
}.

(** [create_and_persist_vector_store(documents, embeddings)]. *)
Definition create_and_persist_vector_store (pf : Platform)
    (documents : list Document) (embeddings : Embeddings)
  : VectorStore * list string :=
  (chroma_from_documents pf documents embeddings PERSIST_DIRECTORY,
   ["Creating new vector store and persisting to " +:+ PERSIST_DIRECTORY
      +:+ "...";
    "Vector store created and persisted successfully."]).

(** [load_persisted_vector_store(embeddings=None)]. *)
Definition load_persisted_vector_store (fs : FileSystem) (pf : Platform)
    (embeddings : option Embeddings) : Result VectorStore * list string :=
  if negb (path_exists fs PERSIST_DIRECTORY)
     || bool_decide (listdir pf PERSIST_DIRECTORY = [])
  then
    (SystemExit,
     ["Error: Vector store not found at " +:+ PERSIST_DIRECTORY +:+ ".";
      "Please run utils.py once to create the database."])
  else
    let '(embeddings, log) :=
      match embeddings with
      | None =>
          (mkEmbeddings "models/embedding-001",
           ["No embeddings provided. Initializing default Google embeddings..."])
      | Some e => (e, [])
      end in
    (Returned (chroma_open pf PERSIST_DIRECTORY embeddings),
     (log ++ ["Loading existing vector store from " +:+ PERSIST_DIRECTORY
                +:+ "...";
              "Vector store loaded successfully."])%list).

(** The ingestion script of [utils.py], lines 91-108: data, embeddings,
    vector store (loaded when the directory has content, created
    otherwise) and the retriever.  The self-test that follows prints what
    this retriever returns for three fixed queries and is left out. *)
Definition utils_main_setup (fs : FileSystem) (pf : Platform)
  : Result (string → list Document * list string) * list string :=
  let csv_file_path := "insurance_policies_sample_100_final.csv" in
  match load_and_prepare_data fs csv_file_path with
  | (SystemExit, log1) =>
      (SystemExit,
       ("--- Running Data Ingestion and Utilities Test ---" :: log1)%list)
  | (Returned (all_documents, policy_id_dict), log1) =>
      let embeddings := mkEmbeddings "models/embedding-001" in
      let '(vector_store_main, log2) :=
        if path_exists fs PERSIST_DIRECTORY
           && negb (bool_decide (listdir pf PERSIST_DIRECTORY = []))
        then
          let '(loaded, log) :=
            load_persisted_vector_store fs pf (Some embeddings) in
          (loaded,
           (("Vector store already exists at " +:+ PERSIST_DIRECTORY
               +:+ ". Loading it.") :: log)%list)
        else
          let '(created, log) :=
            create_and_persist_vector_store pf all_documents embeddings in
          (Returned created, log) in
      match vector_store_main with
      | SystemExit =>
          (SystemExit,
           ("--- Running Data Ingestion and Utilities Test ---"
              :: log1 ++ log2)%list)
      | Returned vector_store_main =>
          (Returned
             (get_custom_retriever_function vector_store_main policy_id_dict),
           ("--- Running Data Ingestion and Utilities Test ---"
              :: log1 ++ log2)%list)
      end
  end.

(** ** Start-up of the chatbot ([chatbot.py], lines 13-30 and 101-135) *)

Definition CSV_FILE_PATH : string := "insurance_policies_sample_100_final.csv".

(** The module body of [chatbot.py]: the two loading steps, either of
    which may end the process, then the loop on the console lines.  The
    value is the session, if the loop was reached, and the lines printed
    before it. *)
Definition chatbot_main (fs : FileSystem) (pf : Platform)
    (llm_model : string)
    (llm_standalone_query : list Message → string → option string)
    (llm_answer : list Document → list Message → string → option string)
    (inputs : list string) : Result Session * list string :=
  let banner := "--- Initializing Insurance Chatbot System Components ---" in
  match load_and_prepare_data fs CSV_FILE_PATH with
  | (SystemExit, log1) => (SystemExit, (banner :: log1)%list)
  | (Returned (all_documents, policy_id_dict), log1) =>
      match load_persisted_vector_store fs pf None with
      | (SystemExit, log2) => (SystemExit, (banner :: log1 ++ log2)%list)
      | (Returned vector_store, log2) =>
          (Returned
             (chat_session policy_id_dict vector_store llm_standalone_query
                llm_answer inputs),
           (banner :: log1 ++ log2
              ++ ["Google Gemini LLM '" +:+ llm_model
                    +:+ "' initialized successfully.";
                  "Chatbot Prompt defined with guardrails.";
                  "History-aware retriever created.";
                  "Conversational retrieval chain created.";
                  "
--- Insurance Policy Query Assistant Ready ---";
                  "Type 'exit' or 'quit' to end the conversation."])%list)
      end
  end.

End Model.

(** ** The dataset generator ([dataset_generator.py]) *)

Module DatasetGenerator.

(** [policy_types]: the insertion-ordered dictionary of lines 10-16,
    each entry with its [coverage_range] and [premium_range]. *)
Definition policy_types : list (string * ((Z * Z) * (Z * Z))) :=
  [("Health", ((100000, 500000), (300, 1000)));
   ("Auto", ((50000, 300000), (200, 800)));
   ("Life", ((200000, 1000000), (500, 2000)));
   ("Home", ((100000, 700000), (400, 1500)));
   ("Travel", ((25000, 150000), (100, 600)))]%Z.

(** [policy_types[name]]; [None] is a [KeyError]. *)
Fixpoint policy_types_get (table : list (string * ((Z * Z) * (Z * Z))))
    (name : string) : option ((Z * Z) * (Z * Z)) :=
  match table with
  | [] => None
  | (k, v) :: table' =>
      if String.eqb k name then Some v else policy_types_get table' name
  end.

(** [round(x, ndigits)] on an [int]: the nearest multiple of
    [10 ** -ndigits], a tie going to the even multiple; [x] itself when
    [ndigits] is not negative. *)
Definition py_round (x ndigits : Z) : Z :=
  if (0 <=? ndigits)%Z then x
  else
    let m := (10 ^ (- ndigits))%Z in
    let q := (x / m)%Z in
    let r := (x mod m)%Z in
    if (2 * r <? m)%Z then (q * m)%Z
    else if (m <? 2 * r)%Z then ((q + 1) * m)%Z
    else if Z.even q then (q * m)%Z
    else ((q + 1) * m)%Z.

Fixpoint zeros (n : nat) : string :=
  match n with
  | O => EmptyString
  | S n' => String "0" (zeros n')
  end.

(** [s.zfill(width)]: zeros on the left up to [width], after a leading
    sign when there is one. *)
Definition zfill (width : nat) (s : string) : string :=
  let pad := zeros (width - String.length s) in
  match s with
  | String c s' =>
      if Ascii.eqb c "+" || Ascii.eqb c "-" then String c (pad +:+ s')
      else pad +:+ s
  | EmptyString => pad
  end.

(** One line of the data set: the dictionary appended at lines 30-37. *)
Record Row := mkRow {
  policy_id : string;
  customer_name : string;
  policy_type : string;
  coverage_amount : Z;
  premium : Z;
  renewal_date : string
}.

(** A computation that draws from the [random] module: from the number
    of draws made so far to a value and the new count, or [None] when it
    raised. *)
Definition Rand (A : Type) : Type := nat → option (A * nat).

#[local] Instance rand_ret : MRet Rand := λ A a pos, Some (a, pos).

#[local] Instance rand_bind : MBind Rand := λ A B f m pos,
  match m pos with
  | Some (a, pos') => f a pos'
  | None => None
  end.

Definition rand_raise {A : Type} : Rand A := λ _, None.

Section Generator.

(** The raw values behind the draws of [random], in the order they are
    made; every outcome of a draw below [n] is [entropy k mod n] for
    some value of [entropy k]. *)
Variable entropy : nat → Z.

(** [fake.name()] and
    [(datetime.now() + timedelta(days=d)).strftime("%Y-%m-%d")] as
    evaluated for line [i]. *)
Variable fake_name : nat → string.
Variable date_after : nat → Z → string.

(** A uniform draw from [0 .. n - 1], for positive [n]. *)
Definition randbelow (n : Z) : Rand Z :=
  λ pos, Some ((entropy pos mod n)%Z, S pos).

(** [random.randint(a, b)]; an empty range raises [ValueError]. *)
Definition randint (a b : Z) : Rand Z :=
  if (b <? a)%Z then rand_raise
  else k ← randbelow (b - a + 1); mret (a + k)%Z.

(** [random.choice(seq)]; an empty sequence raises [IndexError]. *)
Definition choice {A : Type} (seq : list A) : Rand A :=
  match seq with
  | [] => rand_raise
  | _ =>
      k ← randbelow (Z.of_nat (length seq));
      match seq !! Z.to_nat k with
      | Some x => mret x
      | None => rand_raise
      end
  end.

(** The body of the loop, lines 21-37, for index [i]. *)
Definition generate_row (i : nat) : Rand Row :=
  name ← choice (policy_types.*1);
  match policy_types_get policy_types name with
  | None => rand_raise
  | Some (coverage_range, premium_range) =>
      coverage ← randint coverage_range.1 coverage_range.2;
      premium ← randint premium_range.1 premium_range.2;
      days ← randint 30 365;
      let rounded_coverage := py_round coverage (-3) in
      let rounded_premium := py_round premium (-2) in
      mret (mkRow ("POL" +:+ zfill 3 (pretty i)) (fake_name i) name
                  rounded_coverage rounded_premium (date_after i days))
  end.

(** [for i in ...: data.append(...)]. *)
Fixpoint generate_rows (indices : list nat) : Rand (list Row) :=
  match indices with
  | [] => mret []
  | i :: indices' =>
      row ← generate_row i;
      rows ← generate_rows indices';
      mret (row :: rows)
  end.

(** [data] after the loop over [range(1, 101)]. *)
Definition data : option (list Row) :=
  fst <$> generate_rows (seq 1 100) 0.

End Generator.

End DatasetGenerator.

(** ** Further vocabulary *)

(** The lines a session read from the console, in order. *)
Definition inputs_read (tr : list Event) : list string :=
  omap (λ e, match e with EvInput line => Some line | _ => None end) tr.

(** The contexts a session handed to the answer step, in order. *)
Definition contexts_of (tr : list Event) : list (list Document) :=
  omap (λ e, match e with EvGenerate ctx _ _ _ => Some ctx | _ => None end) tr.

(** The retrievals of a session: each query with what came back. *)
Definition retrievals_of (tr : list Event)
  : list (string * list Document) :=
  omap (λ e, match e with EvRetrieve q docs => Some (q, docs) | _ => None end)
    tr.

(** The inputs up to the first exit keyword. *)
Fixpoint before_exit (inputs : list string) : list string :=
  match inputs with
  | [] => []
  | u :: inputs' => if exit_keyword u then [] else u :: before_exit inputs'
  end.

(** The identifier the generator gives to line [i]. *)
Definition generated_id (i : nat) : string :=
  "POL" +:+ DatasetGenerator.zfill 3 (pretty i).

(** A line of the data set is well formed for index [i]: its identifier
    is the one of [i], its type is one of the table, and its amounts are
    whole thousands (coverage) and whole hundreds (premium) inside the
    ranges of that type. *)
Definition valid_row (i : nat) (row : DatasetGenerator.Row) : Prop :=
  DatasetGenerator.policy_id row = generated_id i
  ∧ ∃ coverage_range premium_range,
      DatasetGenerator.policy_types_get DatasetGenerator.policy_types
        (DatasetGenerator.policy_type row)
      = Some (coverage_range, premium_range)
      ∧ (coverage_range.1 ≤ DatasetGenerator.coverage_amount row
         ≤ coverage_range.2)%Z
      ∧ (DatasetGenerator.coverage_amount row mod 1000 = 0)%Z
      ∧ (premium_range.1 ≤ DatasetGenerator.premium row
         ≤ premium_range.2)%Z
      ∧ (DatasetGenerator.premium row mod 100 = 0)%Z.

(** The loader put the identifier column first: the text of the document
    starts with the [policy_id] field of the line, on a line of its
    own. *)
Definition serializes (row : DatasetGenerator.Row) (doc : Document) : Prop :=
  ∃ rest,
    page_content doc
    = "policy_id: " +:+ DatasetGenerator.policy_id row
        +:+ String "010" rest.

(** * Properties *)

Section Properties.

Context `{UnicodeData}.

(** ** Sample runs *)

Example policy_id_match_valid :
  policy_id_match "What is the premium for policy POL001?" = Some "POL001".
Proof. reflexivity. Qed.

Example policy_id_match_lowercase :
  policy_id_match "status of pol042 please" = Some "POL042".
Proof. reflexivity. Qed.

Example policy_id_match_general :
  policy_id_match "Tell me about auto insurance" = None.
Proof. reflexivity. Qed.

Example policy_id_match_four_digits :
  policy_id_match "POL1234" = Some "POL123".
Proof. reflexivity. Qed.

Example policy_id_match_two_digits :
  policy_id_match "POL12 and POL 123" = None.
Proof. reflexivity. Qed.

Example match_policy_id_field_greedy :
  re_search match_policy_id_field "policy_id: POL1234
customer_name: Ann" = Some "POL1234".
Proof. reflexivity. Qed.

(** ** Characters *)

Lemma upper_char_P c :
  Ascii.eqb "P" (upper_char c) = Ascii.eqb c "P" || Ascii.eqb c "p".
Proof. destruct c as [[] [] [] [] [] [] [] []]; reflexivity. Qed.

Lemma upper_char_O c :
  Ascii.eqb "O" (upper_char c) = Ascii.eqb c "O" || Ascii.eqb c "o".
Proof. destruct c as [[] [] [] [] [] [] [] []]; reflexivity. Qed.

Lemma upper_char_L c :
  Ascii.eqb "L" (upper_char c) = Ascii.eqb c "L" || Ascii.eqb c "l".
Proof. destruct c as [[] [] [] [] [] [] [] []]; reflexivity. Qed.

Lemma is_ascii_digit_upper_char c :
  is_ascii_digit (upper_char c) = is_ascii_digit c.
Proof. destruct c as [[] [] [] [] [] [] [] []]; reflexivity. Qed.

Lemma upper_char_ascii c :
  (N_of_ascii (upper_char c) <? 128)%N = (N_of_ascii c <? 128)%N.
Proof. destruct c as [[] [] [] [] [] [] [] []]; reflexivity. Qed.

Lemma upper_char_caseless c : caseless_char c = true → upper_char c = c.
Proof. destruct c as [[] [] [] [] [] [] [] []]; done. Qed.

Lemma caseless_char_not_P c : caseless_char c = true → Ascii.eqb "P" c = false.
Proof. destruct c as [[] [] [] [] [] [] [] []]; done. Qed.

Lemma continuation_byte_caseless c x :
  continuation_byte c = Some x → caseless_char c = true.
Proof. destruct c as [[] [] [] [] [] [] [] []]; done. Qed.

Lemma utf8_lead_caseless c x : utf8_lead c = Some x → caseless_char c = true.
Proof. destruct c as [[] [] [] [] [] [] [] []]; done. Qed.

Lemma decimal_digit_ascii c :
  (N_of_ascii c <? 128)%N = true →
  decimal_digit (N_of_ascii c) = is_ascii_digit c.
Proof. intros Hc. unfold decimal_digit, is_ascii_digit. by rewrite Hc. Qed.

(** ** Texts *)

Lemma append_cons c a b : String c a +:+ b = String c (a +:+ b).
Proof. reflexivity. Qed.

Lemma append_empty b : EmptyString +:+ b = b.
Proof. reflexivity. Qed.

Lemma append_nil_r a : a +:+ EmptyString = a.
Proof. induction a as [|c a IH]; [done|]. by rewrite append_cons, IH. Qed.

Lemma append_assoc a b c : (a +:+ b) +:+ c = a +:+ b +:+ c.
Proof. induction a as [|x a IH]; [done|]. by rewrite !append_cons, IH. Qed.

Lemma append_length a b :
  String.length (a +:+ b) = String.length a + String.length b.
Proof. induction a as [|x a IH]; [done|]. rewrite append_cons. cbn. by rewrite IH. Qed.

Lemma substring_0_0 s : substring 0 0 s = EmptyString.
Proof. by destruct s. Qed.

Lemma upper_append a b : upper (a +:+ b) = upper a +:+ upper b.
Proof.
  induction a as [|c a IH]; [done|].
  rewrite append_cons. cbn [upper]. by rewrite append_cons, IH.
Qed.

Lemma caseless_append a b : caseless (a +:+ b) = caseless a && caseless b.
Proof.
  induction a as [|c a IH]; [done|].
  rewrite append_cons. cbn [caseless]. by rewrite IH, andb_assoc.
Qed.

Lemma upper_caseless s : caseless s = true → upper s = s.
Proof.
  induction s as [|c s IH]; [done|]. cbn [caseless upper].
  intros [Hc Hs]%andb_prop. by rewrite upper_char_caseless, IH.
Qed.

Lemma caseless_without_P s : caseless s = true → without "P" s = true.
Proof.
  induction s as [|c s IH]; [done|]. cbn [caseless without].
  intros [Hc Hs]%andb_prop. by rewrite caseless_char_not_P, IH.
Qed.

(** ** The character at the head of a text *)

Lemma utf8_tail_split n acc s cp bs rest :
  utf8_tail n acc s = Some (cp, bs, rest) →
  s = bs +:+ rest ∧ caseless bs = true
  ∧ ∀ rest', utf8_tail n acc (bs +:+ rest') = Some (cp, bs, rest').
Proof.
  revert acc s bs. induction n as [|n IH]; intros acc s bs; cbn [utf8_tail].
  - by intros [= <- <- <-].
  - destruct s as [|b s]; [done|].
    destruct (continuation_byte b) as [x|] eqn:Hb; [|done].
    cbn [mbind option_bind].
    destruct (utf8_tail n (acc * 64 + x) s) as [[[cp' bs'] rest'']|] eqn:Htail;
      [|done].
    cbn [mbind option_bind]. intros [= <- <- <-].
    apply IH in Htail as (-> & Hbs & Hext).
    split; [done|]. split.
    + cbn [caseless]. by rewrite (continuation_byte_caseless b x), Hbs.
    + intros rest'. rewrite append_cons. cbn [utf8_tail].
      rewrite Hb. cbn [mbind option_bind]. by rewrite Hext.
Qed.

Lemma utf8_head_split s cp d rest :
  utf8_head s = Some (cp, d, rest) →
  s = d +:+ rest ∧ d ≠ EmptyString
  ∧ (∀ rest', utf8_head (d +:+ rest') = Some (cp, d, rest'))
  ∧ (decimal_digit cp = true → caseless d = true).
Proof.
  destruct s as [|b s]; [done|]. cbn [utf8_head].
  destruct (N_of_ascii b <? 128)%N eqn:Hb.
  - intros [= <- <- <-]. split; [done|]. split; [done|]. split.
    + intros rest'. rewrite append_cons, append_empty. cbn [utf8_head].
      by rewrite Hb.
    + rewrite decimal_digit_ascii by done. intros Hd. cbn [caseless].
      unfold caseless_char. by rewrite Hd.
  - destruct (utf8_lead b) as [[[n payload] least]|] eqn:Hlead; [|done].
    cbn [mbind option_bind].
    destruct (utf8_tail n payload s) as [[[cp' bs] rest'']|] eqn:Htail;
      [|done].
    cbn [mbind option_bind].
    destruct ((least <=? cp')%N && (cp' <? 1114112)%N) eqn:Hcp; [|done].
    intros [= <- <- <-].
    apply utf8_tail_split in Htail as (-> & Hbs & Hext).
    split; [done|]. split; [done|]. split.
    + intros rest'. rewrite append_cons. cbn [utf8_head].
      rewrite Hb, Hlead. cbn [mbind option_bind].
      rewrite Hext. cbn [mbind option_bind]. by rewrite Hcp.
    + intros _. cbn [caseless].
      by rewrite (utf8_lead_caseless b _ Hlead), Hbs.
Qed.

(** ** Encoding and decoding *)

Lemma div_mod_64 n :
  (n = 64 * (n / 64) + n mod 64 ∧ n mod 64 < 64)%N.
Proof. split; [apply N.div_mod; lia | apply N.mod_lt; lia]. Qed.

Ltac div_mod_lia :=
  repeat match goal with
         | |- context [(?a mod 64)%N] =>
             generalize dependent (a mod 64)%N; intros
         | _ : context [(?a mod 64)%N] |- _ =>
             generalize dependent (a mod 64)%N; intros
         | |- context [(?a / 64)%N] =>
             generalize dependent (a / 64)%N; intros
         | _ : context [(?a / 64)%N] |- _ =>
             generalize dependent (a / 64)%N; intros
         end;
  lia.

Lemma continuation_byte_encode n :
  continuation_byte (ascii_of_N (128 + n mod 64)) = Some (n mod 64)%N.
Proof.
  destruct (div_mod_64 n) as [_ Hlt]. unfold continuation_byte.
  rewrite N_ascii_embedding by div_mod_lia. cbn zeta.
  destruct (128 <=? 128 + n mod 64)%N eqn:H1; [|apply N.leb_gt in H1; div_mod_lia].
  destruct (128 + n mod 64 <? 192)%N eqn:H2; [|apply N.ltb_ge in H2; div_mod_lia].
  cbn. f_equal. div_mod_lia.
Qed.

Lemma utf8_lead_encode n k payload least :
  (k + payload < 256)%N →
  (if (k + payload <? 194)%N then None
   else if (k + payload <? 224)%N then Some (1, (k + payload - 192)%N, 128%N)
   else if (k + payload <? 240)%N then Some (2, (k + payload - 224)%N, 2048%N)
   else if (k + payload <? 245)%N then Some (3, (k + payload - 240)%N, 65536%N)
   else None) = Some (n, payload, least) →
  utf8_lead (ascii_of_N (k + payload)) = Some (n, payload, least)
  ∧ (N_of_ascii (ascii_of_N (k + payload)) <? 128)%N = false.
Proof.
  intros Hlt Hlead. unfold utf8_lead. rewrite N_ascii_embedding by done.
  split; [done|]. apply N.ltb_ge.
  destruct (k + payload <? 194)%N eqn:Hk; [done|]. apply N.ltb_ge in Hk. div_mod_lia.
Qed.

(** Decoding gives back the code point that was encoded. *)
Lemma utf8_head_encode cp rest :
  (cp < 1114112)%N →
  utf8_head (utf8_encode cp +:+ rest) = Some (cp, utf8_encode cp, rest).
Proof.
  intros Hcp. unfold utf8_encode. cbv beta zeta.
  destruct (div_mod_64 cp) as [D0 B0].
  destruct (div_mod_64 (cp / 64)) as [D1 B1].
  destruct (div_mod_64 (cp / 64 / 64)) as [D2 B2].
  destruct (cp <? 128)%N eqn:C1; [|apply N.ltb_ge in C1;
    destruct (cp <? 2048)%N eqn:C2; [|apply N.ltb_ge in C2;
      destruct (cp <? 65536)%N eqn:C3; [|apply N.ltb_ge in C3]]].
  - rewrite !append_cons, append_empty. cbn [utf8_head]. rewrite N_ascii_embedding by (apply N.ltb_lt in C1; lia).
    by rewrite C1.
  - apply N.ltb_lt in C2.
    destruct (utf8_lead_encode 1 192 (cp / 64) 128) as [Hlead Hhigh]; [div_mod_lia| |].
    { destruct (192 + cp / 64 <? 194)%N eqn:E1; [apply N.ltb_lt in E1; div_mod_lia|].
      destruct (192 + cp / 64 <? 224)%N eqn:E2; [|apply N.ltb_ge in E2; div_mod_lia].
      do 3 f_equal. div_mod_lia. }
    rewrite !append_cons, append_empty. cbn [utf8_head utf8_tail]. rewrite Hhigh, Hlead.
    repeat (cbn [mbind option_bind utf8_tail];
            rewrite ?continuation_byte_encode).
    replace (cp / 64 * 64 + cp mod 64)%N with cp by div_mod_lia.
    destruct (128 <=? cp)%N eqn:E3; [|apply N.leb_gt in E3; div_mod_lia].
    destruct (cp <? 1114112)%N eqn:E4; [|apply N.ltb_ge in E4; div_mod_lia].
    done.
  - apply N.ltb_lt in C3.
    destruct (utf8_lead_encode 2 224 (cp / 64 / 64) 2048) as [Hlead Hhigh];
      [div_mod_lia| |].
    { destruct (224 + cp / 64 / 64 <? 194)%N eqn:E1;
        [apply N.ltb_lt in E1; div_mod_lia|].
      destruct (224 + cp / 64 / 64 <? 224)%N eqn:E2;
        [apply N.ltb_lt in E2; div_mod_lia|].
      destruct (224 + cp / 64 / 64 <? 240)%N eqn:E5;
        [|apply N.ltb_ge in E5; div_mod_lia].
      do 3 f_equal. div_mod_lia. }
    rewrite !append_cons, append_empty. cbn [utf8_head utf8_tail]. rewrite Hhigh, Hlead.
    repeat (cbn [mbind option_bind utf8_tail];
            rewrite ?continuation_byte_encode).
    replace ((cp / 64 / 64 * 64 + (cp / 64) mod 64) * 64 + cp mod 64)%N
      with cp by div_mod_lia.
    destruct (2048 <=? cp)%N eqn:E3; [|apply N.leb_gt in E3; div_mod_lia].
    destruct (cp <? 1114112)%N eqn:E4; [|apply N.ltb_ge in E4; div_mod_lia].
    done.
  - destruct (div_mod_64 (cp / 64 / 64 / 64)) as [D3 B3].
    destruct (utf8_lead_encode 3 240 (cp / 64 / 64 / 64) 65536)
      as [Hlead Hhigh]; [div_mod_lia| |].
    { destruct (240 + cp / 64 / 64 / 64 <? 194)%N eqn:E1;
        [apply N.ltb_lt in E1; div_mod_lia|].
      destruct (240 + cp / 64 / 64 / 64 <? 224)%N eqn:E2;
        [apply N.ltb_lt in E2; div_mod_lia|].
      destruct (240 + cp / 64 / 64 / 64 <? 240)%N eqn:E5;
        [apply N.ltb_lt in E5; div_mod_lia|].
      destruct (240 + cp / 64 / 64 / 64 <? 245)%N eqn:E6;
        [|apply N.ltb_ge in E6; div_mod_lia].
      do 3 f_equal. div_mod_lia. }
    rewrite !append_cons, append_empty. cbn [utf8_head utf8_tail]. rewrite Hhigh, Hlead.
    repeat (cbn [mbind option_bind utf8_tail];
            rewrite ?continuation_byte_encode).
    replace (((cp / 64 / 64 / 64 * 64 + (cp / 64 / 64) mod 64) * 64
              + (cp / 64) mod 64) * 64 + cp mod 64)%N with cp by div_mod_lia.
    destruct (65536 <=? cp)%N eqn:E3; [|apply N.leb_gt in E3; div_mod_lia].
    destruct (cp <? 1114112)%N eqn:E4; [|apply N.ltb_ge in E4; div_mod_lia].
    done.
Qed.

Lemma continuation_byte_Some c x :
  continuation_byte c = Some x →
  (x < 64)%N ∧ ascii_of_N (128 + x) = c.
Proof.
  unfold continuation_byte. cbv zeta.
  destruct (128 <=? N_of_ascii c)%N eqn:H1; [|done].
  destruct (N_of_ascii c <? 192)%N eqn:H2; [|done].
  apply N.leb_le in H1. apply N.ltb_lt in H2. intros [= <-].
  split; [lia|].
  replace (128 + (N_of_ascii c - 128))%N with (N_of_ascii c) by lia.
  apply ascii_N_embedding.
Qed.

Lemma utf8_lead_Some c n payload least :
  utf8_lead c = Some (n, payload, least) →
  n = 1 ∧ (2 ≤ payload < 32 ∧ least = 128)%N
    ∧ ascii_of_N (192 + payload) = c
  ∨ n = 2 ∧ (payload < 16 ∧ least = 2048)%N
    ∧ ascii_of_N (224 + payload) = c
  ∨ n = 3 ∧ (payload < 5 ∧ least = 65536)%N
    ∧ ascii_of_N (240 + payload) = c.
Proof.
  unfold utf8_lead. cbv zeta.
  destruct (N_of_ascii c <? 194)%N eqn:H1; [done|]. apply N.ltb_ge in H1.
  destruct (N_of_ascii c <? 224)%N eqn:H2;
    [apply N.ltb_lt in H2|apply N.ltb_ge in H2;
     destruct (N_of_ascii c <? 240)%N eqn:H3;
       [apply N.ltb_lt in H3|apply N.ltb_ge in H3;
        destruct (N_of_ascii c <? 245)%N eqn:H4;
          [apply N.ltb_lt in H4|done]]];
    intros [= <- <- <-]; [left|right; left|right; right];
    (split; [done|]); (split; [split; [lia|done]|]).
  - replace (192 + (N_of_ascii c - 192))%N with (N_of_ascii c) by lia.
    apply ascii_N_embedding.
  - replace (224 + (N_of_ascii c - 224))%N with (N_of_ascii c) by lia.
    apply ascii_N_embedding.
  - replace (240 + (N_of_ascii c - 240))%N with (N_of_ascii c) by lia.
    apply ascii_N_embedding.
Qed.

Lemma div_mod_64_unique n q r :
  (n = q * 64 + r → r < 64 → n / 64 = q ∧ n mod 64 = r)%N.
Proof.
  intros Hn Hr. destruct (div_mod_64 n) as [D B].
  split; div_mod_lia.
Qed.

(** A decoded character is the encoding of its code point. *)
Lemma utf8_head_decode s cp d rest :
  utf8_head s = Some (cp, d, rest) →
  (cp < 1114112)%N ∧ d = utf8_encode cp.
Proof.
  destruct s as [|b s]; [done|]. cbn [utf8_head].
  destruct (N_of_ascii b <? 128)%N eqn:Hb.
  - intros [= <- <- <-]. apply N.ltb_lt in Hb. split; [lia|].
    unfold utf8_encode. apply N.ltb_lt in Hb. rewrite Hb.
    by rewrite ascii_N_embedding.
  - destruct (utf8_lead b) as [[[n payload] least]|] eqn:Hlead; [|done].
    cbn [mbind option_bind].
    destruct (utf8_tail n payload s) as [[[cp' bs] rest']|] eqn:Htail;
      [|done].
    cbn [mbind option_bind].
    destruct (least <=? cp')%N eqn:Hleast; [|done]. apply N.leb_le in Hleast.
    destruct (cp' <? 1114112)%N eqn:Hmost; [|done]. apply N.ltb_lt in Hmost.
    intros [= <- <- <-]. split; [done|].
    apply utf8_lead_Some in Hlead
      as [(-> & [Hp ->] & <-)|[(-> & [Hp ->] & <-)|(-> & [Hp ->] & <-)]].
    + destruct s as [|b1 s]; [done|]. cbn [utf8_tail] in Htail.
      destruct (continuation_byte b1) as [x1|] eqn:H1; [|done].
      apply continuation_byte_Some in H1 as [B1 <-].
      injection Htail as <- <- <-.
      destruct (div_mod_64_unique (payload * 64 + x1) payload x1 eq_refl B1)
        as [Q0 R0].
      unfold utf8_encode. cbv zeta.
      destruct (payload * 64 + x1 <? 128)%N eqn:C1;
        [apply N.ltb_lt in C1; lia|].
      destruct (payload * 64 + x1 <? 2048)%N eqn:C2;
        [|apply N.ltb_ge in C2; lia].
      by rewrite Q0, R0.
    + destruct s as [|b1 s]; [done|]. cbn [utf8_tail] in Htail.
      destruct (continuation_byte b1) as [x1|] eqn:H1; [|done].
      destruct s as [|b2 s]; [done|]. cbn [mbind option_bind] in Htail.
      destruct (continuation_byte b2) as [x2|] eqn:H2; [|done].
      apply continuation_byte_Some in H1 as [B1 <-].
      apply continuation_byte_Some in H2 as [B2 <-].
      injection Htail as <- <- <-.
      destruct (div_mod_64_unique ((payload * 64 + x1) * 64 + x2)
                  (payload * 64 + x1) x2 eq_refl B2) as [Q0 R0].
      destruct (div_mod_64_unique (payload * 64 + x1) payload x1 eq_refl B1)
        as [Q1 R1].
      unfold utf8_encode. cbv zeta.
      destruct ((payload * 64 + x1) * 64 + x2 <? 128)%N eqn:C1;
        [apply N.ltb_lt in C1; lia|].
      destruct ((payload * 64 + x1) * 64 + x2 <? 2048)%N eqn:C2;
        [apply N.ltb_lt in C2; lia|].
      destruct ((payload * 64 + x1) * 64 + x2 <? 65536)%N eqn:C3;
        [|apply N.ltb_ge in C3; lia].
      by rewrite Q0, R0, Q1, R1.
    + destruct s as [|b1 s]; [done|]. cbn [utf8_tail] in Htail.
      destruct (continuation_byte b1) as [x1|] eqn:H1; [|done].
      destruct s as [|b2 s]; [done|]. cbn [mbind option_bind] in Htail.
      destruct (continuation_byte b2) as [x2|] eqn:H2; [|done].
      destruct s as [|b3 s]; [done|]. cbn [mbind option_bind] in Htail.
      destruct (continuation_byte b3) as [x3|] eqn:H3; [|done].
      apply continuation_byte_Some in H1 as [B1 <-].
      apply continuation_byte_Some in H2 as [B2 <-].
      apply continuation_byte_Some in H3 as [B3 <-].
      injection Htail as <- <- <-.
      destruct (div_mod_64_unique (((payload * 64 + x1) * 64 + x2) * 64 + x3)
                  ((payload * 64 + x1) * 64 + x2) x3 eq_refl B3) as [Q0 R0].
      destruct (div_mod_64_unique ((payload * 64 + x1) * 64 + x2)
                  (payload * 64 + x1) x2 eq_refl B2) as [Q1 R1].
      destruct (div_mod_64_unique (payload * 64 + x1) payload x1 eq_refl B1)
        as [Q2 R2].
      unfold utf8_encode. cbv zeta.
      destruct (((payload * 64 + x1) * 64 + x2) * 64 + x3 <? 128)%N eqn:C1;
        [apply N.ltb_lt in C1; lia|].
      destruct (((payload * 64 + x1) * 64 + x2) * 64 + x3 <? 2048)%N eqn:C2;
        [apply N.ltb_lt in C2; lia|].
      destruct (((payload * 64 + x1) * 64 + x2) * 64 + x3 <? 65536)%N eqn:C3;
        [apply N.ltb_lt in C3; lia|].
      by rewrite Q0, R0, Q1, R1, Q2, R2.
Qed.

(** ** The digit at the head of a text *)

(** What [\d] matches at the head of a text is the first character,
    when it is a decimal digit. *)
Lemma leading_digit_encode cp rest :
  (cp < 1114112)%N →
  leading_digit (utf8_encode cp +:+ rest)
  = if decimal_digit cp then Some (utf8_encode cp, rest) else None.
Proof.
  intros Hcp. unfold leading_digit. rewrite utf8_head_encode by done.
  cbn [mbind option_bind]. by destruct (decimal_digit cp).
Qed.

Lemma utf8_tail_upper n acc s :
  utf8_tail n acc (upper s)
  = match utf8_tail n acc s with
    | Some (cp, bs, rest) => Some (cp, bs, upper rest)
    | None => None
    end.
Proof.
  revert acc s. induction n as [|n IH]; intros acc s; [done|].
  destruct s as [|b s]; [done|]. cbn [upper utf8_tail].
  destruct (continuation_byte b) as [x|] eqn:Hb.
  - rewrite (upper_char_caseless b) by by eapply continuation_byte_caseless.
    rewrite Hb. cbn [mbind option_bind]. rewrite IH.
    by destruct (utf8_tail n (acc * 64 + x) s) as [[[cp bs] rest]|].
  - destruct (caseless_char b) eqn:Hc.
    + rewrite upper_char_caseless by done. by rewrite Hb.
    + destruct (continuation_byte (upper_char b)) as [y|] eqn:Hu; [|done].
      apply continuation_byte_caseless in Hu.
      unfold caseless_char in Hu, Hc.
      rewrite is_ascii_digit_upper_char, upper_char_ascii in Hu. congruence.
Qed.

Lemma leading_digit_split s d rest :
  leading_digit s = Some (d, rest) →
  s = d +:+ rest ∧ d ≠ EmptyString ∧ caseless d = true
  ∧ ∀ rest', leading_digit (d +:+ rest') = Some (d, rest').
Proof.
  unfold leading_digit.
  destruct (utf8_head s) as [[[cp d'] rest'']|] eqn:Hhead; [|done].
  cbn [mbind option_bind].
  destruct (decimal_digit cp) eqn:Hcp; [|done]. intros [= <- <-].
  apply utf8_head_split in Hhead as (-> & Hd & Hext & Hcase).
  split; [done|]. split; [done|]. split; [auto|].
  intros rest'. rewrite Hext. cbn [mbind option_bind]. by rewrite Hcp.
Qed.

Lemma leading_digit_append s d rest rest' :
  leading_digit s = Some (d, rest) →
  leading_digit (s +:+ rest') = Some (d, rest +:+ rest').
Proof.
  intros (-> & _ & _ & Hext)%leading_digit_split.
  by rewrite append_assoc.
Qed.

Lemma leading_digit_empty : leading_digit EmptyString = None.
Proof. reflexivity. Qed.

Lemma leading_digit_length s d rest :
  leading_digit s = Some (d, rest) → String.length rest < String.length s.
Proof.
  intros (-> & Hd & _)%leading_digit_split. rewrite append_length.
  destruct d; [done|]. cbn. lia.
Qed.

(** An ASCII digit is a decimal digit. *)
Lemma leading_digit_ascii c s :
  is_ascii_digit c = true →
  leading_digit (String c s) = Some (String c EmptyString, s).
Proof.
  intros Hc. unfold leading_digit. cbn [utf8_head].
  assert ((N_of_ascii c <? 128)%N = true) as Hlt.
  { unfold is_ascii_digit in Hc. apply andb_prop in Hc as [_ Hc].
    apply N.leb_le in Hc. apply N.ltb_lt. lia. }
  rewrite Hlt. cbn [mbind option_bind].
  by rewrite decimal_digit_ascii, Hc.
Qed.

(** Upper-casing a text keeps its leading digit. *)
Lemma leading_digit_upper s :
  leading_digit (upper s)
  = match leading_digit s with
    | Some (d, rest) => Some (d, upper rest)
    | None => None
    end.
Proof.
  destruct s as [|b s]; [done|]. unfold leading_digit.
  cbn [upper utf8_head]. rewrite upper_char_ascii.
  destruct (N_of_ascii b <? 128)%N eqn:Hb; cbn [mbind option_bind].
  - rewrite !decimal_digit_ascii by by rewrite ?upper_char_ascii.
    rewrite is_ascii_digit_upper_char.
    destruct (is_ascii_digit b) eqn:Hd; [|done].
    rewrite upper_char_caseless; [done|]. unfold caseless_char. by rewrite Hd.
  - rewrite (upper_char_caseless b)
      by (unfold caseless_char; rewrite Hb; apply orb_true_r).
    destruct (utf8_lead b) as [[[n payload] least]|]; [|done].
    cbn [mbind option_bind]. rewrite utf8_tail_upper.
    destruct (utf8_tail n payload s) as [[[cp bs] rest]|]; [|done].
    cbn [mbind option_bind].
    destruct ((least <=? cp)%N && (cp <? 1114112)%N); [|done].
    cbn [mbind option_bind]. by destruct (decimal_digit cp).
Qed.

(** A text cut short either still has its leading digit or is a part
    of it. *)
Lemma utf8_tail_cut n acc s x cp bs rest :
  utf8_tail n acc (s +:+ x) = Some (cp, bs, rest) →
  (∃ rest', utf8_tail n acc s = Some (cp, bs, rest') ∧ rest = rest' +:+ x)
  ∨ (utf8_tail n acc s = None ∧ caseless s = true).
Proof.
  revert acc s bs. induction n as [|n IH]; intros acc s bs.
  - cbn [utf8_tail]. intros [= <- <- <-]. left. by exists s.
  - destruct s as [|b s]; [by right|].
    rewrite append_cons. cbn [utf8_tail].
    destruct (continuation_byte b) as [y|] eqn:Hb; [|done].
    cbn [mbind option_bind].
    destruct (utf8_tail n (acc * 64 + y) (s +:+ x))
      as [[[cp' bs'] rest'']|] eqn:Htail; [|done].
    cbn [mbind option_bind]. intros [= <- <- <-].
    apply IH in Htail as [(rest' & -> & ->)|[-> Hs]].
    + left. by exists rest'.
    + right. split; [done|]. cbn [caseless].
      by rewrite (continuation_byte_caseless b y), Hs.
Qed.

Lemma leading_digit_cut s x d rest :
  leading_digit (s +:+ x) = Some (d, rest) →
  (∃ rest', leading_digit s = Some (d, rest') ∧ rest = rest' +:+ x)
  ∨ (leading_digit s = None ∧ caseless s = true).
Proof.
  destruct s as [|b s]; [by right|].
  unfold leading_digit. rewrite append_cons. cbn [utf8_head].
  destruct (N_of_ascii b <? 128)%N eqn:Hb; cbn [mbind option_bind].
  - destruct (decimal_digit (N_of_ascii b)); [|done].
    intros [= <- <-]. left. by exists s.
  - destruct (utf8_lead b) as [[[n payload] least]|] eqn:Hlead; [|done].
    cbn [mbind option_bind].
    destruct (utf8_tail n payload (s +:+ x)) as [[[cp bs] rest'']|] eqn:Htail;
      [|done].
    cbn [mbind option_bind].
    destruct ((least <=? cp)%N && (cp <? 1114112)%N) eqn:Hcp; [|done].
    cbn [mbind option_bind].
    destruct (decimal_digit cp) eqn:Hd; [|done]. intros [= <- <-].
    apply utf8_tail_cut in Htail as [(rest' & -> & ->)|[-> Hs]].
    + left. exists rest'. cbn [mbind option_bind].
      rewrite Hcp. cbn [mbind option_bind]. by rewrite Hd.
    + right. split; [done|]. cbn [caseless].
      by rewrite (utf8_lead_caseless b _ Hlead), Hs.
Qed.


(** ** The vocabulary in code points

    [utf8_text] gives the text of a [str] from its code points; what
    the decoder finds is stated here on the code points themselves. *)

Lemma leading_digit_spec s d rest :
  leading_digit s = Some (d, rest) ↔
  ∃ cp, (cp < 1114112)%N ∧ decimal_digit cp = true
        ∧ d = utf8_encode cp ∧ s = d +:+ rest.
Proof.
  split.
  - unfold leading_digit.
    destruct (utf8_head s) as [[[cp d'] rest']|] eqn:Hhead; [|done].
    cbn [mbind option_bind].
    destruct (decimal_digit cp) eqn:Hcp; [|done]. intros [= <- <-].
    exists cp. apply utf8_head_decode in Hhead as Hdec.
    apply utf8_head_split in Hhead as (Hs & _). by destruct Hdec.
  - intros (cp & Hcp & Hd & -> & ->).
    by rewrite leading_digit_encode, Hd.
Qed.

(** A run of [n] digits is the text of [n] code points that are decimal
    digits. *)
Lemma digits_spec n s :
  digits n s = true ↔
  ∃ cps, length cps = n
         ∧ Forall (λ cp, (cp < 1114112)%N ∧ decimal_digit cp = true) cps
         ∧ s = utf8_text cps.
Proof.
  revert s. induction n as [|n IH]; intros s; cbn [digits].
  - rewrite bool_decide_eq_true. split.
    + intros ->. by exists [].
    + by intros ([|cp cps] & Hlen & _ & ->).
  - split.
    + destruct (leading_digit s) as [[d r]|] eqn:Hd; [|done].
      intros (cps & Hlen & Hcps & ->)%IH.
      apply leading_digit_spec in Hd as (cp & Hcp & Hdec & -> & ->).
      exists (cp :: cps). cbn [length]. by rewrite Hlen, Forall_cons.
    + intros ([|cp cps] & Hlen & Hcps & ->); [done|].
      apply Forall_cons in Hcps as [[Hcp Hdec] Hcps].
      cbn [utf8_text foldr]. rewrite leading_digit_encode, Hdec by done.
      apply IH. exists cps. cbn [length] in Hlen. split; [lia|done].
Qed.

(** ** Runs of digits *)

Lemma match_digits_split n s ds :
  match_digits n s = Some ds →
  (∃ rest, s = ds +:+ rest) ∧ digits n ds = true ∧ caseless ds = true
  ∧ ∀ rest', match_digits n (ds +:+ rest') = Some ds.
Proof.
  revert s ds. induction n as [|n IH]; intros s ds; cbn [match_digits].
  - intros [= <-]. split; [by exists s|]. done.
  - destruct (leading_digit s) as [[d r]|] eqn:Hd; [|done].
    cbn [mbind option_bind].
    destruct (match_digits n r) as [ds'|] eqn:Hds; [|done].
    cbn [mbind option_bind]. intros [= <-].
    apply leading_digit_split in Hd as (-> & _ & Hcase & Hext).
    apply IH in Hds as ([rest ->] & Hdigits & Hcase' & Hext').
    split; [exists rest; by rewrite append_assoc|].
    split; [cbn [digits]; by rewrite Hext|].
    split; [by rewrite caseless_append, Hcase, Hcase'|].
    intros rest'. rewrite append_assoc, Hext. cbn [mbind option_bind].
    by rewrite Hext'.
Qed.

Lemma digits_match_digits n ds rest :
  digits n ds = true → match_digits n (ds +:+ rest) = Some ds.
Proof.
  revert ds. induction n as [|n IH]; intros ds; cbn [digits match_digits].
  - by intros ->%bool_decide_eq_true.
  - destruct (leading_digit ds) as [[d r]|] eqn:Hd; [|done]. intros Hr.
    rewrite (leading_digit_append _ _ _ rest Hd). cbn [mbind option_bind].
    rewrite IH by done. cbn [mbind option_bind].
    by apply leading_digit_split in Hd as (-> & _).
Qed.

Lemma digits_caseless n ds : digits n ds = true → caseless ds = true.
Proof.
  intros Hds. pose proof (digits_match_digits n ds EmptyString Hds) as Hm.
  by apply match_digits_split in Hm as (_ & _ & Hcase & _).
Qed.

(** A text is a run of digits of one length only. *)
Lemma digits_inj n m s : digits n s = true → digits m s = true → n = m.
Proof.
  revert m s. induction n as [|n IH]; intros [|m] s; cbn [digits]; try done.
  - intros ->%bool_decide_eq_true. by rewrite leading_digit_empty.
  - intros Hs ->%bool_decide_eq_true. by rewrite leading_digit_empty in Hs.
  - destruct (leading_digit s) as [[d r]|]; [|done].
    intros Hn Hm. f_equal. by apply (IH m r).
Qed.

Lemma digits_ascii_3 d1 d2 d3 :
  is_ascii_digit d1 = true → is_ascii_digit d2 = true →
  is_ascii_digit d3 = true →
  digits 3 (String d1 (String d2 (String d3 EmptyString))) = true.
Proof. intros H1 H2 H3. cbn [digits]. by rewrite !leading_digit_ascii. Qed.

Lemma match_digits_upper n s : match_digits n (upper s) = match_digits n s.
Proof.
  revert s. induction n as [|n IH]; intros s; [done|]. cbn [match_digits].
  rewrite leading_digit_upper.
  destruct (leading_digit s) as [[d r]|]; [|done].
  cbn [mbind option_bind]. by rewrite IH.
Qed.

Lemma match_digits_cut n s x ds :
  match_digits n (s +:+ x) = Some ds →
  match_digits n s = Some ds
  ∨ (match_digits n s = None ∧ caseless s = true).
Proof.
  revert s ds. induction n as [|n IH]; intros s ds; cbn [match_digits].
  - by left.
  - destruct (leading_digit (s +:+ x)) as [[d r]|] eqn:Hd; [|done].
    cbn [mbind option_bind].
    destruct (match_digits n r) as [ds'|] eqn:Hds; [|done].
    cbn [mbind option_bind]. intros [= <-].
    apply leading_digit_cut in Hd as [(r' & Hd & ->)|[-> Hs]]; [|by right].
    rewrite Hd. cbn [mbind option_bind].
    apply IH in Hds as [->|[-> Hr']]; [by left|right].
    split; [done|].
    apply leading_digit_split in Hd as (-> & _ & Hcase & _).
    by rewrite caseless_append, Hcase, Hr'.
Qed.

Lemma span_digits_upto_enough fuel1 fuel2 s :
  (String.length s ≤ fuel1)%nat → (String.length s ≤ fuel2)%nat →
  span_digits_upto fuel1 s = span_digits_upto fuel2 s.
Proof.
  revert fuel2 s. induction fuel1 as [|fuel1 IH]; intros fuel2 s H1 H2.
  - destruct s; [|cbn in H1; lia]. by destruct fuel2.
  - destruct fuel2 as [|fuel2].
    + destruct s; [done|cbn in H2; lia].
    + cbn [span_digits_upto].
      destruct (leading_digit s) as [[d r]|] eqn:Hd; [|done].
      apply leading_digit_length in Hd. f_equal. apply IH; lia.
Qed.

(** The greedy scan stops for want of a digit, never for want of
    fuel. *)
Lemma span_digits_unfold s :
  span_digits s
  = match leading_digit s with
    | Some (d, rest) => d +:+ span_digits rest
    | None => EmptyString
    end.
Proof.
  unfold span_digits. destruct s as [|c s]; [done|].
  cbn [String.length span_digits_upto].
  destruct (leading_digit (String c s)) as [[d r]|] eqn:Hd; [|done].
  apply leading_digit_length in Hd. cbn [String.length] in Hd.
  f_equal. apply span_digits_upto_enough; lia.
Qed.

Lemma span_digits_spec s :
  ∃ n rest, s = span_digits s +:+ rest ∧ digits n (span_digits s) = true
            ∧ leading_digit rest = None.
Proof.
  remember (String.length s) as k eqn:Hk. revert s Hk.
  induction k as [k IH] using lt_wf_ind. intros s ->.
  rewrite span_digits_unfold.
  destruct (leading_digit s) as [[d r]|] eqn:Hd.
  - pose proof (leading_digit_length _ _ _ Hd) as Hlen.
    destruct (IH _ Hlen r eq_refl) as (n & rest & Hr & Hn & Hrest).
    apply leading_digit_split in Hd as (-> & _ & _ & Hext).
    exists (S n), rest. split; [by rewrite append_assoc, <- Hr|].
    split; [|done]. cbn [digits]. by rewrite Hext.
  - by exists 0, s.
Qed.

Lemma span_digits_empty s :
  span_digits s = EmptyString ↔ leading_digit s = None.
Proof.
  rewrite span_digits_unfold.
  destruct (leading_digit s) as [[d r]|] eqn:Hd; [|done].
  apply leading_digit_split in Hd as (_ & Hne & _).
  split; [|done]. by destruct d.
Qed.

Lemma span_digits_digits n ds rest :
  digits n ds = true → leading_digit rest = None →
  span_digits (ds +:+ rest) = ds.
Proof.
  intros Hds Hrest. revert ds Hds.
  induction n as [|n IH]; intros ds; cbn [digits].
  - intros ->%bool_decide_eq_true. by apply span_digits_empty.
  - destruct (leading_digit ds) as [[d r]|] eqn:Hd; [|done]. intros Hr.
    rewrite span_digits_unfold, (leading_digit_append _ _ _ rest Hd).
    rewrite IH by done.
    by apply leading_digit_split in Hd as (-> & _).
Qed.


(** ** The classifier finds the leftmost token *)

Lemma match_literal_Some lit s r :
  match_literal lit s = Some r ↔ s = lit +:+ r.
Proof.
  revert s. induction lit as [|c lit IH]; intros s; cbn [match_literal].
  - rewrite append_empty. split; congruence.
  - rewrite append_cons. destruct s as [|d s]; [done|].
    destruct (Ascii.eqb c d) eqn:Hcd.
    + apply Ascii.eqb_eq in Hcd as ->. rewrite IH. split; congruence.
    + apply Ascii.eqb_neq in Hcd. split; [done|]. congruence.
Qed.

Lemma match_digits_3 s :
  match_digits 3 s
  = '(d1, s1) ← leading_digit s;
    '(d2, s2) ← leading_digit s1;
    '(d3, _) ← leading_digit s2;
    Some (d1 +:+ d2 +:+ d3).
Proof.
  cbn [match_digits].
  destruct (leading_digit s) as [[d1 s1]|]; [|done]. cbn [mbind option_bind].
  destruct (leading_digit s1) as [[d2 s2]|]; [|done]. cbn [mbind option_bind].
  destruct (leading_digit s2) as [[d3 s3]|]; [|done]. cbn [mbind option_bind].
  by rewrite append_nil_r.
Qed.

(** A token is [POL] in either case and the three digits the pattern
    would consume. *)
Lemma policy_token_match_digits p o l s :
  policy_token (String p (String o (String l s)))
  = if Ascii.eqb "P" (upper_char p) && Ascii.eqb "O" (upper_char o)
       && Ascii.eqb "L" (upper_char l)
    then (λ ds, String p (String o (String l ds))) <$> match_digits 3 s
    else None.
Proof.
  cbn [policy_token]. rewrite upper_char_P, upper_char_O, upper_char_L.
  destruct (_ && _ && _); [|done]. rewrite match_digits_3.
  destruct (leading_digit s) as [[d1 s1]|]; [|done]. cbn [mbind option_bind].
  destruct (leading_digit s1) as [[d2 s2]|]; [|done]. cbn [mbind option_bind].
  by destruct (leading_digit s2) as [[d3 s3]|].
Qed.

(** At a fixed start position, matching the upper-cased query is the
    same as finding a token, in either case, in the query itself. *)
Lemma match_POL_d3_upper s :
  match_POL_d3 (upper s) = upper <$> policy_token s.
Proof.
  destruct s as [|p [|o [|l s]]]; unfold match_POL_d3;
    cbn [upper match_literal].
  1-3: repeat (match goal with
               | |- context [Ascii.eqb ?a (upper_char ?c)] =>
                   destruct (Ascii.eqb a (upper_char c))
               end; cbn [mbind option_bind policy_token fmap option_fmap
                         option_map]); reflexivity.
  rewrite policy_token_match_digits.
  destruct (Ascii.eqb "P" (upper_char p)) eqn:Hp; [|done].
  destruct (Ascii.eqb "O" (upper_char o)) eqn:Ho; [|done].
  destruct (Ascii.eqb "L" (upper_char l)) eqn:Hl; [|done].
  cbn [andb mbind option_bind]. rewrite match_digits_upper.
  destruct (match_digits 3 s) as [ds|] eqn:Hds; [|done].
  cbn [mbind option_bind fmap option_fmap option_map upper].
  apply Ascii.eqb_eq in Hp as <-, Ho as <-, Hl as <-.
  apply match_digits_split in Hds as (_ & _ & Hcase & _).
  by rewrite upper_caseless.
Qed.

(** The shape of a token: upper-cased, it is [POL] and exactly three
    digits. *)
Lemma policy_token_shape s t :
  policy_token s = Some t →
  ∃ ds, upper t = "POL" +:+ ds ∧ digits 3 ds = true.
Proof.
  destruct s as [|p [|o [|l s]]]; try done.
  rewrite policy_token_match_digits.
  destruct (Ascii.eqb "P" (upper_char p)) eqn:Hp; [|done].
  destruct (Ascii.eqb "O" (upper_char o)) eqn:Ho; [|done].
  destruct (Ascii.eqb "L" (upper_char l)) eqn:Hl; [|done].
  cbn [andb]. destruct (match_digits 3 s) as [ds|] eqn:Hds; [|done].
  intros [= <-]. exists ds. cbn [upper].
  apply Ascii.eqb_eq in Hp as <-, Ho as <-, Hl as <-.
  apply match_digits_split in Hds as (_ & Hdigits & Hcase & _).
  by rewrite upper_caseless.
Qed.

Lemma policy_id_match_cons c q :
  policy_id_match (String c q) =
  if occurs_at (String c q) 0 then Some (token_at (String c q) 0)
  else policy_id_match q.
Proof.
  unfold policy_id_match, occurs_at, token_at. cbn [string_drop].
  change (re_search match_POL_d3 (upper (String c q))) with
    (match match_POL_d3 (upper (String c q)) with
     | Some m => Some m
     | None => re_search match_POL_d3 (upper q)
     end).
  rewrite match_POL_d3_upper.
  by destruct (policy_token (String c q)).
Qed.

Lemma occurs_at_empty i : occurs_at EmptyString i = false.
Proof. by destruct i. Qed.

Lemma first_occurrence_unique q i j :
  first_occurrence q i → first_occurrence q j → i = j.
Proof.
  intros [Hi Hlti] [Hj Hltj].
  destruct (Nat.lt_trichotomy i j) as [Hlt | [Heq | Hgt]]; [|done|].
  - apply Hltj in Hlt. congruence.
  - apply Hlti in Hgt. congruence.
Qed.

(** What the classifier computes, in the vocabulary of the
    specification: the identifier of the leftmost token when there is
    one, nothing when the query has no token at any offset. *)
Lemma policy_id_match_spec q :
  match policy_id_match q with
  | Some id => ∃ i, first_occurrence q i ∧ id = token_at q i
  | None => ∀ i, occurs_at q i = false
  end.
Proof.
  induction q as [|c q IH].
  - cbn. apply occurs_at_empty.
  - rewrite policy_id_match_cons.
    destruct (occurs_at (String c q) 0) eqn:H0.
    + exists 0. split; [|done]. split; [done|]. intros j Hj. lia.
    + destruct (policy_id_match q) as [id|].
      * destruct IH as (i & [Hi Hlt] & ->).
        exists (S i). split; [|done]. split; [done|].
        intros [|j] Hj; [done|]. apply (Hlt j). lia.
      * intros [|i]; [done|]. apply (IH i).
Qed.

Lemma policy_id_match_first q i :
  first_occurrence q i → policy_id_match q = Some (token_at q i).
Proof.
  intros Hi. pose proof (policy_id_match_spec q) as Hspec.
  destruct (policy_id_match q) as [id|].
  - destruct Hspec as (j & Hj & ->).
    by rewrite (first_occurrence_unique q i j).
  - destruct Hi as [Hi _]. rewrite Hspec in Hi. discriminate.
Qed.

Lemma policy_id_match_none q :
  (∀ i, occurs_at q i = false) → policy_id_match q = None.
Proof.
  intros Hnone. pose proof (policy_id_match_spec q) as Hspec.
  destruct (policy_id_match q) as [id|]; [|done].
  destruct Hspec as (i & [Hi _] & _). rewrite Hnone in Hi. discriminate.
Qed.

(** A token that occurs somewhere has a leftmost occurrence. *)
Lemma occurs_first q i :
  occurs_at q i = true → ∃ j, (j ≤ i)%nat ∧ first_occurrence q j.
Proof.
  intros Hi. pose proof (policy_id_match_spec q) as Hspec.
  destruct (policy_id_match q) as [id|].
  - destruct Hspec as (j & Hj & _). exists j. split; [|done].
    destruct (decide (j ≤ i)%nat) as [|Hn]; [done|].
    destruct Hj as [_ Hlt]. rewrite Hlt in Hi; [done|lia].
  - rewrite Hspec in Hi. discriminate.
Qed.

(** The shape of a token: [POL] and exactly three digits. *)
Lemma token_at_shape q i :
  occurs_at q i = true →
  ∃ ds, token_at q i = "POL" +:+ ds ∧ digits 3 ds = true.
Proof.
  unfold occurs_at, token_at.
  destruct (policy_token (string_drop i q)) as [t|] eqn:Ht; [|done].
  intros _. by apply policy_token_shape in Ht.
Qed.

(** Checking by computation that offset [i] is the leftmost occurrence. *)
Lemma first_occurrence_check q i :
  occurs_at q i = true →
  forallb (λ j, negb (occurs_at q j)) (seq 0 i) = true →
  first_occurrence q i.
Proof.
  intros Hi Hall. split; [done|]. intros j Hj.
  rewrite forallb_forall in Hall.
  apply negb_true_iff, Hall, in_seq. lia.
Qed.

Lemma no_occurrence_check q :
  policy_id_match q = None → ∀ i, occurs_at q i = false.
Proof.
  intros Hq. pose proof (policy_id_match_spec q) as Hspec.
  by rewrite Hq in Hspec.
Qed.

Lemma policy_id_match_shape q id :
  policy_id_match q = Some id →
  ∃ ds, id = "POL" +:+ ds ∧ digits 3 ds = true.
Proof.
  intros Hq. pose proof (policy_id_match_spec q) as Hspec.
  rewrite Hq in Hspec. destruct Hspec as (i & [Hi _] & ->).
  by apply token_at_shape.
Qed.

Lemma re_search_here matcher s x :
  matcher s = Some x → re_search matcher s = Some x.
Proof. intros Hm. destruct s; cbn [re_search]; by rewrite Hm. Qed.

Lemma match_POL_d3_token ds rest :
  digits 3 ds = true →
  match_POL_d3 ("POL" +:+ ds +:+ rest) = Some ("POL" +:+ ds).
Proof.
  intros Hds. unfold match_POL_d3.
  assert (match_literal "POL" ("POL" +:+ ds +:+ rest) = Some (ds +:+ rest))
    as -> by by apply match_literal_Some.
  cbn [mbind option_bind]. by rewrite digits_match_digits.
Qed.

Lemma policy_id_match_token ds rest :
  digits 3 ds = true →
  policy_id_match ("POL" +:+ ds +:+ rest) = Some ("POL" +:+ ds).
Proof.
  intros Hds. unfold policy_id_match.
  rewrite !upper_append, (upper_caseless ds) by by eapply digits_caseless.
  apply re_search_here.
  change (upper "POL") with "POL". by apply match_POL_d3_token.
Qed.

(** Whatever the script of the digits: a query that starts with [POL]
    and the text of three code points that are decimal digits names that
    identifier. *)
Lemma policy_id_match_code_points cps rest :
  length cps = 3 →
  Forall (λ cp, (cp < 1114112)%N ∧ decimal_digit cp = true) cps →
  policy_id_match ("POL" +:+ utf8_text cps +:+ rest)
  = Some ("POL" +:+ utf8_text cps).
Proof.
  intros Hlen Hcps. apply policy_id_match_token, digits_spec. eauto.
Qed.

(** ** Text after the token *)

Lemma match_POL_d3_append s x id :
  match_POL_d3 s = Some id → match_POL_d3 (s +:+ x) = Some id.
Proof.
  unfold match_POL_d3.
  destruct (match_literal "POL" s) as [r|] eqn:Hlit; [|done].
  apply match_literal_Some in Hlit as ->. cbn [mbind option_bind].
  destruct (match_digits 3 r) as [ds|] eqn:Hds; [|done].
  cbn [mbind option_bind]. intros [= <-].
  apply match_digits_split in Hds as ([rest ->] & Hdigits & _).
  rewrite !append_assoc. by apply match_POL_d3_token.
Qed.

(** A match that needs the added text starts in a text without
    another [P]. *)
Lemma match_POL_d3_cut c s x id :
  match_POL_d3 (String c s) = None →
  match_POL_d3 (String c s +:+ x) = Some id →
  without "P" s = true.
Proof.
  unfold match_POL_d3. rewrite append_cons. cbn [match_literal].
  destruct (Ascii.eqb "P" c); [|done].
  destruct s as [|o s]; [done|]. rewrite append_cons.
  destruct (Ascii.eqb "O" o) eqn:Ho; [|done].
  apply Ascii.eqb_eq in Ho as <-.
  destruct s as [|l s]; [done|]. rewrite append_cons.
  destruct (Ascii.eqb "L" l) eqn:Hl; [|done].
  apply Ascii.eqb_eq in Hl as <-. cbn [mbind option_bind].
  destruct (match_digits 3 (s +:+ x)) as [ds|] eqn:Hds; [|done].
  apply match_digits_cut in Hds as [->|[_ Hs]]; [done|].
  intros _ _. cbn [without]. by apply caseless_without_P.
Qed.

Lemma re_search_without_P s :
  without "P" s = true → re_search match_POL_d3 s = None.
Proof.
  induction s as [|c s IH]; [done|]. cbn [without re_search].
  intros [Hc Hs]%andb_prop. unfold match_POL_d3 at 1. cbn [match_literal].
  apply negb_true_iff in Hc. rewrite Hc. cbn [mbind option_bind]. auto.
Qed.

Lemma re_search_POL_d3_append s x id :
  re_search match_POL_d3 s = Some id →
  re_search match_POL_d3 (s +:+ x) = Some id.
Proof.
  induction s as [|c s IH]; [done|].
  rewrite append_cons. cbn [re_search].
  destruct (match_POL_d3 (String c s)) as [m|] eqn:Hm.
  - intros [= <-].
    by rewrite <- append_cons, (match_POL_d3_append _ x m).
  - intros Hs.
    destruct (match_POL_d3 (String c (s +:+ x))) as [m|] eqn:Hmx; [|auto].
    rewrite <- append_cons in Hmx.
    apply (match_POL_d3_cut _ _ _ _ Hm), re_search_without_P in Hmx.
    congruence.
Qed.


(** ** The three outcomes of the retriever *)

Lemma retriever_found dict q id doc :
  policy_id_match q = Some id → dict !! id = Some doc →
  _custom_retriever_logic dict q =
  ([doc], ["[Retrieval]: Directly retrieved policy: " +:+ id]).
Proof. intros Hq Hid. unfold _custom_retriever_logic. by rewrite Hq, Hid. Qed.

Lemma retriever_not_found dict q id :
  policy_id_match q = Some id → dict !! id = None →
  _custom_retriever_logic dict q =
  ([], ["[Retrieval]: Policy ID '" +:+ id
          +:+ "' not found. No document retrieval from vectorstore."]).
Proof. intros Hq Hid. unfold _custom_retriever_logic. by rewrite Hq, Hid. Qed.

Lemma retriever_no_id dict q :
  policy_id_match q = None →
  _custom_retriever_logic dict q =
  ([], ["[Retrieval]: No specific policy ID found in query. No document retrieval from vectorstore."]).
Proof. intros Hq. unfold _custom_retriever_logic. by rewrite Hq. Qed.

(** Whatever the retriever returns was looked up under the identifier
    the classifier extracted. *)
Lemma retriever_elem dict q doc :
  doc ∈ (_custom_retriever_logic dict q).1 →
  ∃ id, policy_id_match q = Some id ∧ dict !! id = Some doc.
Proof.
  unfold _custom_retriever_logic.
  destruct (policy_id_match q) as [id|]; cbn; [|by intros ?%elem_of_nil].
  destruct (dict !! id) as [d|] eqn:Hid; cbn; [|by intros ?%elem_of_nil].
  intros ->%list_elem_of_singleton. eauto.
Qed.

(** C1: when the query contains a token POL + three digits (in either
    case) and the identifier extracted from it -- the upper-cased
    leftmost token -- is a key of the record store, [resolve] returns the
    list holding exactly the one record stored under that identifier. *)
Theorem resolve_returns_stored_record
    (vectorstore : VectorStore) (store : gmap string Document)
    (query : string) (i : nat) (record : Document) :
  first_occurrence query i →
  store !! token_at query i = Some record →
  resolve vectorstore store query = [record].
Proof.
  intros Hi Hrec. unfold resolve, get_custom_retriever_function.
  by rewrite (retriever_found store query (token_at query i) record)
    by auto using policy_id_match_first.
Qed.

(** C2: when the query contains a token but the identifier extracted
    from it is not a key of the record store, [resolve] returns the empty
    list, which is also what it returns for any query without a token. *)
Theorem resolve_unknown_identifier_empty
    (vectorstore : VectorStore) (store : gmap string Document)
    (query : string) (i : nat) :
  first_occurrence query i →
  store !! token_at query i = None →
  resolve vectorstore store query = []
  ∧ ∀ vectorstore' store' query',
      (∀ j, occurs_at query' j = false) →
      resolve vectorstore store query = resolve vectorstore' store' query'.
Proof.
  intros Hi Hnone. unfold resolve, get_custom_retriever_function.
  rewrite (retriever_not_found store query (token_at query i))
    by auto using policy_id_match_first.
  split; [done|]. intros _ store' query' Hq'.
  by rewrite retriever_no_id by auto using policy_id_match_none.
Qed.

(** Only the leftmost token counts: a later identifier is not looked
    up, whether or not the store has it. *)
Example resolve_later_token_ignored :
  let doc := mkDocument "policy_id: POL002" [] in
  resolve (mkVectorStore (λ _, [doc])) {["POL002" := doc]}
    "compare POL001 with POL002" = [].
Proof. reflexivity. Qed.

(** C3: a query with no token POL + three digits at any offset resolves
    to the empty list, whatever the record store holds. *)
Theorem resolve_without_identifier_empty
    (vectorstore : VectorStore) (store : gmap string Document)
    (query : string) :
  (∀ i, occurs_at query i = false) →
  resolve vectorstore store query = [].
Proof.
  intros Hq. unfold resolve, get_custom_retriever_function.
  by rewrite retriever_no_id by auto using policy_id_match_none.
Qed.

(** C4: for every query the classifier returns the leftmost substring
    that reads POL + three digits when letter case is ignored, as the
    upper-cased token; later candidates are never returned; what it
    returns is always [POL] and a run of exactly three decimal digits,
    never more or fewer; and it returns nothing exactly when no offset
    of the query carries such a token. *)
Theorem classifier_returns_first_token (query : string) :
  (∀ id, policy_id_match query = Some id
         ↔ ∃ i, first_occurrence query i ∧ id = token_at query i)
  ∧ (policy_id_match query = None ↔ ∀ i, occurs_at query i = false)
  ∧ (∀ id, policy_id_match query = Some id →
           ∃ ds, id = "POL" +:+ ds ∧ digits 3 ds = true
                 ∧ ∀ n, digits n ds = true → n = 3).
Proof.
  pose proof (policy_id_match_spec query) as Hspec.
  split; [|split].
  - intros id. split.
    + intros Hq. rewrite Hq in Hspec. done.
    + intros (i & Hi & ->). by apply policy_id_match_first.
  - split.
    + apply no_occurrence_check.
    + apply policy_id_match_none.
  - intros id (ds & -> & Hds)%policy_id_match_shape.
    exists ds. split; [done|]. split; [done|].
    intros n Hn. by apply (digits_inj n 3 ds).
Qed.

(** C5: the retriever's result (documents and log line alike) is the
    same for any two vector stores, an empty one included, and so is the
    whole chain built on it: no path consults the vector store. *)
Theorem retriever_independent_of_vector_store
    (vs1 vs2 : VectorStore) (store : gmap string Document) (query : string) :
  get_custom_retriever_function vs1 store query
  = get_custom_retriever_function vs2 store query
  ∧ resolve vs1 store query = resolve (mkVectorStore (λ _, [])) store query
  ∧ ∀ rewrite generate input chat_history,
      conversational_retrieval_chain_invoke store vs1 rewrite generate
        input chat_history
      = conversational_retrieval_chain_invoke store vs2 rewrite generate
          input chat_history.
Proof. repeat split. Qed.

(** ** The identifier of a row *)

Lemma match_policy_id_field_Some s id :
  match_policy_id_field s = Some id ↔
  ∃ r, s = "policy_id: POL" +:+ r ∧ is_Some (leading_digit r)
       ∧ id = "POL" +:+ span_digits r.
Proof.
  unfold match_policy_id_field. split.
  - destruct (match_literal "policy_id: POL" s) as [rest|] eqn:Hlit; [|done].
    apply match_literal_Some in Hlit as ->. cbn [mbind option_bind].
    destruct (span_digits rest) as [|c ds] eqn:Hspan; [done|].
    intros [= <-]. exists rest. split; [done|]. split; [|by rewrite Hspan].
    destruct (leading_digit rest) eqn:Hd; [done|].
    apply span_digits_empty in Hd. congruence.
  - intros (r & -> & [x Hd] & ->).
    assert (match_literal "policy_id: POL" ("policy_id: POL" +:+ r) = Some r)
      as -> by by apply match_literal_Some.
    cbn [mbind option_bind].
    destruct (span_digits r) as [|c ds] eqn:Hspan; [|done].
    apply span_digits_empty in Hspan. congruence.
Qed.

Lemma re_search_None matcher s :
  re_search matcher s = None ↔
  ∀ pre suf, s = pre +:+ suf → matcher suf = None.
Proof.
  induction s as [|c s IH]; cbn [re_search].
  - destruct (matcher EmptyString) eqn:Hm.
    + split; [done|]. intros H0. by rewrite (H0 EmptyString EmptyString) in Hm.
    + split; [|done]. intros _ [|? ?] suf; [|done].
      rewrite append_empty. by intros <-.
  - destruct (matcher (String c s)) eqn:Hm.
    + split; [done|]. intros H0.
      by rewrite (H0 EmptyString (String c s)) in Hm.
    + rewrite IH. split.
      * intros H0 [|c' pre] suf.
        -- rewrite append_empty. by intros <-.
        -- rewrite append_cons. intros [= -> ->]. by apply (H0 pre).
      * intros H0 pre suf ->. apply (H0 (String c pre)). by rewrite append_cons.
Qed.

Lemma re_search_Some matcher s x :
  re_search matcher s = Some x →
  ∃ pre suf, s = pre +:+ suf ∧ matcher suf = Some x.
Proof.
  induction s as [|c s IH]; cbn [re_search].
  - destruct (matcher EmptyString) eqn:Hm; [|done].
    intros [= <-]. by exists EmptyString, EmptyString.
  - destruct (matcher (String c s)) eqn:Hm.
    + intros [= <-]. by exists EmptyString, (String c s).
    + intros (pre & suf & -> & Hsuf)%IH. by exists (String c pre), suf.
Qed.

(** A row is malformed exactly when no identifier is extracted from it. *)
Lemma policy_id_of_None doc : policy_id_of doc = None ↔ malformed doc.
Proof.
  unfold policy_id_of, malformed, has_policy_id_field. split.
  - intros Hnone (before & after & Htext & Hd).
    rewrite re_search_None in Hnone.
    specialize (Hnone _ _ Htext).
    assert (match_policy_id_field ("policy_id: POL" +:+ after)
            = Some ("POL" +:+ span_digits after)) as Hsome
      by (apply match_policy_id_field_Some; eauto).
    congruence.
  - intros Hno.
    destruct (re_search match_policy_id_field (page_content doc))
      as [id|] eqn:Hs; [|done].
    apply re_search_Some in Hs as (pre & suf & Htext & Hsuf).
    apply match_policy_id_field_Some in Hsuf as (r & -> & Hd & _).
    destruct Hno. eauto.
Qed.

(** An extracted identifier is [POL] and one or more digits. *)
Lemma policy_id_of_shape doc id :
  policy_id_of doc = Some id →
  ∃ n ds, id = "POL" +:+ ds ∧ digits (S n) ds = true.
Proof.
  intros (pre & suf & _ & Hsuf)%re_search_Some.
  apply match_policy_id_field_Some in Hsuf as (r & _ & [x Hd] & ->).
  destruct (span_digits_spec r) as (n & rest & _ & Hn & _).
  destruct n as [|n]; [|by exists n, (span_digits r)].
  apply bool_decide_eq_true, span_digits_empty in Hn. congruence.
Qed.

(** ** The record store *)

Lemma build_policy_dict_snoc rows doc :
  build_policy_dict (rows ++ [doc])
  = policy_dict_step (build_policy_dict rows) doc.
Proof. unfold build_policy_dict. by rewrite foldl_snoc. Qed.

(** Rows with another identifier, or none, leave an entry as it is. *)
Lemma foldl_policy_dict_step_other rows (m : gmap string Document) id :
  Forall (λ d, policy_id_of d ≠ Some id) rows →
  foldl policy_dict_step m rows !! id = m !! id.
Proof.
  intros Hrows. revert m.
  induction Hrows as [|d rows Hd _ IH]; intros m; [done|].
  cbn [foldl]. rewrite IH. unfold policy_dict_step.
  destruct (policy_id_of d) as [id'|]; [|done].
  apply lookup_insert_ne. congruence.
Qed.

(** The entry of an identifier is the last row that carries it. *)
Lemma build_policy_dict_last before doc after id :
  policy_id_of doc = Some id →
  Forall (λ d, policy_id_of d ≠ Some id) after →
  build_policy_dict (before ++ doc :: after) !! id = Some doc.
Proof.
  intros Hid Hafter. unfold build_policy_dict.
  rewrite foldl_app. cbn [foldl].
  rewrite foldl_policy_dict_step_other by done.
  unfold policy_dict_step at 1. rewrite Hid. apply lookup_insert_eq.
Qed.

(** Every entry is a row of the input, stored under its own identifier. *)
Lemma build_policy_dict_lookup rows id doc :
  build_policy_dict rows !! id = Some doc →
  doc ∈ rows ∧ policy_id_of doc = Some id.
Proof.
  revert id doc. induction rows as [|d rows IH] using rev_ind; intros id doc.
  - change (build_policy_dict []) with (∅ : gmap string Document).
    by rewrite lookup_empty.
  - rewrite build_policy_dict_snoc. unfold policy_dict_step.
    destruct (policy_id_of d) as [id'|] eqn:Hd.
    + rewrite lookup_insert. case_decide as Hid.
      * intros [= <-]. subst id'. split; [|done].
        apply elem_of_app. right. by apply list_elem_of_singleton.
      * intros [? ?]%IH. split; [|done]. apply elem_of_app. by left.
    + intros [? ?]%IH. split; [|done]. apply elem_of_app. by left.
Qed.

(** The keys are the identifiers extracted from the rows. *)
Lemma build_policy_dict_dom rows :
  dom (build_policy_dict rows) = list_to_set (omap policy_id_of rows).
Proof.
  induction rows as [|d rows IH] using rev_ind; [apply dom_empty_L|].
  rewrite build_policy_dict_snoc, omap_app, list_to_set_app_L, <- IH.
  unfold policy_dict_step.
  change (omap policy_id_of [d]) with
    (match policy_id_of d with Some id => [id] | None => [] end).
  destruct (policy_id_of d) as [id|]; cbn [list_to_set].
  - by rewrite dom_insert_L, union_empty_r_L, (comm_L (∪)).
  - by rewrite union_empty_r_L.
Qed.

(** A row without identifier does not change the store, wherever it
    stands. *)
Lemma build_policy_dict_skip before doc after :
  policy_id_of doc = None →
  build_policy_dict (before ++ doc :: after)
  = build_policy_dict (before ++ after).
Proof.
  intros Hdoc. unfold build_policy_dict. rewrite !foldl_app. cbn [foldl].
  unfold policy_dict_step at 2. by rewrite Hdoc.
Qed.

(** A set built from a list has as many elements as the list has
    distinct entries. *)
Lemma size_list_to_set_distinct (l : list string) :
  size (list_to_set l : gset string) = length (remove_dups l).
Proof.
  rewrite <- (size_list_to_set (C := gset string) (remove_dups l))
    by apply NoDup_remove_dups.
  f_equal. apply set_eq. intros x.
  by rewrite !elem_of_list_to_set, elem_of_remove_dups.
Qed.

(** C8: when several rows carry the same extracted identifier -- [doc]
    is the last of them, any number of others come [before] it -- the
    store maps the identifier to [doc] (last write wins); and the keys of
    the store are pairwise distinct, one per distinct identifier of the
    rows. *)
Theorem duplicate_identifier_last_row_wins
    (before after : list Document) (doc : Document) (id : string) :
  policy_id_of doc = Some id →
  Forall (λ d, policy_id_of d ≠ Some id) after →
  let store := build_policy_dict (before ++ doc :: after) in
  store !! id = Some doc
  ∧ NoDup (map_to_list store).*1
  ∧ size store
    = length (remove_dups (omap policy_id_of (before ++ doc :: after)%list)).
Proof.
  intros Hid Hafter store. split; [|split].
  - by apply build_policy_dict_last.
  - apply NoDup_fst_map_to_list.
  - rewrite <- size_dom. unfold store. rewrite build_policy_dict_dom.
    apply size_list_to_set_distinct.
Qed.

Lemma well_formed_has_id doc :
  ¬ malformed doc → ∃ id, policy_id_of doc = Some id.
Proof.
  intros Hwf. destruct (policy_id_of doc) as [id|] eqn:Hid; [eauto|].
  by apply policy_id_of_None in Hid.
Qed.

(** C9: given an existing file, [load_and_prepare_data] returns normally
    for every sequence of rows the loader yields: it returns all rows
    and a store in which every entry is a well-formed row under its own
    identifier, every well-formed row has its identifier as a key, and a
    malformed row (no [policy_id: POL] + digit in its text) leaves no
    trace: the store is the one built without it. *)
Theorem malformed_rows_are_skipped (fs : FileSystem) (csv_path : string) :
  path_exists fs csv_path = true →
  ∃ store log,
    load_and_prepare_data fs csv_path
    = (Returned (csv_rows fs csv_path, store), log)
    ∧ (∀ id doc, store !! id = Some doc →
         doc ∈ csv_rows fs csv_path ∧ ¬ malformed doc
         ∧ policy_id_of doc = Some id)
    ∧ (∀ doc, doc ∈ csv_rows fs csv_path → ¬ malformed doc →
         ∃ id, policy_id_of doc = Some id ∧ is_Some (store !! id))
    ∧ (∀ before doc after,
         csv_rows fs csv_path = (before ++ doc :: after)%list →
         malformed doc →
         store = build_policy_dict (before ++ after)).
Proof.
  intros Hexists. unfold load_and_prepare_data. rewrite Hexists. cbn [negb].
  eexists _, _. split; [reflexivity|]. split; [|split].
  - intros id doc [Hin Hid]%build_policy_dict_lookup.
    split; [done|]. split; [|done].
    intros Hbad%policy_id_of_None. congruence.
  - intros doc Hin [id Hid]%well_formed_has_id.
    exists id. split; [done|].
    apply (elem_of_dom (D := gset string)).
    rewrite build_policy_dict_dom, elem_of_list_to_set.
    apply list_elem_of_omap. eauto.
  - intros before doc after -> Hbad%policy_id_of_None.
    by apply build_policy_dict_skip.
Qed.

(** C10: against a store built by [build_policy_dict], every record
    [resolve] returns has an extracted identifier of POL + exactly three
    digits; a record stored under POL + a run of four or more digits
    (or of fewer than three) is returned for no query; and such a record
    does exist as a key: the row [policy_id: POL1234] is stored under
    [POL1234], and [resolve] is empty for every query against that
    store. *)
Theorem resolve_returns_only_three_digit_records
    (vectorstore : VectorStore) (rows : list Document) (query : string) :
  (∀ doc, doc ∈ resolve vectorstore (build_policy_dict rows) query →
     ∃ ds, policy_id_of doc = Some ("POL" +:+ ds) ∧ digits 3 ds = true)
  ∧ (∀ n ds doc,
       build_policy_dict rows !! ("POL" +:+ ds) = Some doc →
       digits n ds = true → n ≠ 3 →
       doc ∉ resolve vectorstore (build_policy_dict rows) query)
  ∧ (let doc := mkDocument "policy_id: POL1234
customer_name: Ann Lee" [] in
     build_policy_dict [doc] !! "POL1234" = Some doc
     ∧ resolve vectorstore (build_policy_dict [doc]) query = []).
Proof.
  assert (∀ rows' doc,
            doc ∈ resolve vectorstore (build_policy_dict rows') query →
            ∃ ds, policy_id_of doc = Some ("POL" +:+ ds)
                  ∧ digits 3 ds = true) as Hthree.
  { intros rows' doc (id & Hq & Hid)%retriever_elem.
    apply build_policy_dict_lookup in Hid as [_ Hid].
    apply policy_id_match_shape in Hq as (ds & -> & ?).
    by exists ds. }
  assert (∀ rows' n ds doc,
            build_policy_dict rows' !! ("POL" +:+ ds) = Some doc →
            digits n ds = true → n ≠ 3 →
            doc ∉ resolve vectorstore (build_policy_dict rows') query)
    as Hother.
  { intros rows' n ds doc [_ Hid]%build_policy_dict_lookup Hn Hne Hin.
    apply Hthree in Hin as (ds' & Hid' & Hds').
    rewrite Hid in Hid'.
    apply (inj Some), (inj (String.app "POL")) in Hid' as <-.
    by apply Hne, (digits_inj n 3 ds). }
  split; [apply Hthree|]. split; [by eauto|].
  intros doc. split; [reflexivity|].
  destruct (resolve vectorstore (build_policy_dict [doc]) query)
    as [|d l] eqn:Hres; [done|].
  assert (d ∈ resolve vectorstore (build_policy_dict [doc]) query) as Hin
    by (rewrite Hres; left).
  pose proof Hin as (id & _ & [Hd _]%build_policy_dict_lookup)%retriever_elem.
  apply list_elem_of_singleton in Hd as ->.
  destruct (Hother [doc] 4 "1234" doc); [reflexivity|reflexivity|lia|done].
Qed.

(** ** Case-insensitive comparison *)

Lemma ascii_forall (P : ascii → bool) :
  forallb (λ n, P (ascii_of_nat n)) (seq 0 256) = true → ∀ c, P c = true.
Proof.
  intros Hall c. rewrite forallb_forall in Hall.
  rewrite <- (ascii_nat_embedding c). apply Hall, in_seq.
  pose proof (nat_ascii_bounded c). lia.
Qed.

Lemma char_eq_nocase_lower c d :
  char_eq_nocase c d = Ascii.eqb (lower_char c) (lower_char d).
Proof.
  apply Bool.eqb_prop. revert d. apply ascii_forall. revert c.
  apply (ascii_forall (λ c,
    forallb (λ n, Bool.eqb (char_eq_nocase c (ascii_of_nat n))
                    (Ascii.eqb (lower_char c) (lower_char (ascii_of_nat n))))
      (seq 0 256))).
  vm_compute. reflexivity.
Qed.

Lemma eq_nocase_lower a b : eq_nocase a b = true ↔ lower a = lower b.
Proof.
  revert b. induction a as [|c a IH]; intros [|d b]; cbn; try done.
  rewrite andb_true_iff, IH, char_eq_nocase_lower, Ascii.eqb_eq.
  split; [by intros [-> ->]|]. by intros [= -> ->].
Qed.

(** The test of line 141, [user_query.lower() in ["exit", "quit"]], is
    case-insensitive equality with one of the two keywords. *)
Lemma exit_keyword_decide user_query :
  bool_decide (lower user_query ∈ ["exit"; "quit"]) = exit_keyword user_query.
Proof.
  unfold exit_keyword. apply eq_true_iff_eq.
  rewrite bool_decide_eq_true, orb_true_iff, !eq_nocase_lower.
  rewrite !elem_of_cons, elem_of_nil. cbn. tauto.
Qed.

(** ** The dialogue loop *)

Section ChatbotProperties.

Variable policy_id_dict : gmap string Document.
Variable vector_store : VectorStore.
Variable llm_standalone_query : list Message → string → option string.
Variable llm_answer :
  list Document → list Message → string → option string.

Local Abbreviation invoke :=
  (conversational_retrieval_chain_invoke policy_id_dict vector_store
     llm_standalone_query llm_answer).
Local Abbreviation loop :=
  (chat_loop policy_id_dict vector_store llm_standalone_query llm_answer).

Lemma answers_of_app tr1 tr2 :
  answers_of (tr1 ++ tr2) = (answers_of tr1 ++ answers_of tr2)%list.
Proof. apply omap_app. Qed.

Lemma histories_seen_app tr1 tr2 :
  histories_seen (tr1 ++ tr2)
  = (histories_seen tr1 ++ histories_seen tr2)%list.
Proof. apply omap_app. Qed.

Lemma answers_of_prints log : answers_of (EvPrint <$> log) = [].
Proof. by induction log. Qed.

Lemma histories_seen_prints log : histories_seen (EvPrint <$> log) = [].
Proof. by induction log. Qed.

(** One invocation of the chain is one rewrite call on the current
    state, and yields an answer event exactly when it returns. *)
Lemma invoke_events input chat_history :
  answers_of (invoke input chat_history).1
  = option_list (invoke input chat_history).2
  ∧ histories_seen (invoke input chat_history).1 = [chat_history]
  ∧ ∃ events,
      (invoke input chat_history).1
      = EvRewrite chat_history input
          (llm_standalone_query chat_history input) :: events.
Proof.
  unfold conversational_retrieval_chain_invoke.
  destruct (llm_standalone_query chat_history input) as [query|];
    [|by eauto].
  destruct (get_custom_retriever_function _ _ query) as [docs log].
  cbn [fst snd]. split; [|split; [|by eauto]].
  - change (answers_of ?l) with (omap
      (λ e, match e with EvGenerate _ _ _ (Some a) => Some a | _ => None end) l).
    cbn [omap list_omap app].
    rewrite omap_app. fold (answers_of (EvPrint <$> log)).
    rewrite answers_of_prints. cbn.
    by destruct (llm_answer docs chat_history input).
  - unfold histories_seen. cbn [omap list_omap app].
    rewrite omap_app. fold (histories_seen (EvPrint <$> log)).
    by rewrite histories_seen_prints.
Qed.

(** The loop, one iteration unfolded. *)
Lemma loop_exit user_query inputs' chat_history :
  exit_keyword user_query = true →
  loop (user_query :: inputs') chat_history
  = mkSession Closed chat_history
      [EvInput user_query; EvPrint "[Chatbot]: Goodbye!"].
Proof.
  intros Hexit. cbn [chat_loop].
  by rewrite exit_keyword_decide, Hexit.
Qed.

Lemma loop_raise user_query inputs' chat_history events :
  exit_keyword user_query = false →
  invoke user_query chat_history = (events, None) →
  loop (user_query :: inputs') chat_history
  = mkSession ChainError chat_history (EvInput user_query :: events).
Proof.
  intros Hexit Hinv. cbn [chat_loop].
  by rewrite exit_keyword_decide, Hexit, Hinv.
Qed.

Lemma loop_turn user_query inputs' chat_history events answer :
  exit_keyword user_query = false →
  invoke user_query chat_history = (events, Some answer) →
  let rest :=
    loop inputs'
      (chat_history ++ [HumanMessage user_query; AIMessage answer]) in
  loop (user_query :: inputs') chat_history
  = mkSession (outcome rest) (final_history rest)
      (EvInput user_query :: events
         ++ EvPrint ("[Chatbot]: " +:+ answer) :: trace rest)%list.
Proof.
  intros Hexit Hinv. cbn [chat_loop].
  by rewrite exit_keyword_decide, Hexit, Hinv.
Qed.

(** The state the loop ends in is the state it started from, followed
    by one user message and one assistant message per answer
    produced. *)
Lemma loop_final_history inputs chat_history :
  let s := loop inputs chat_history in
  let n := length (answers_of (trace s)) in
  final_history s
  = (chat_history ++ transcript (take n inputs) (answers_of (trace s)))%list
  ∧ length (final_history s) = length chat_history + 2 * n.
Proof.
  revert chat_history.
  induction inputs as [|u inputs IH]; intros h.
  - cbn. by rewrite app_nil_r, Nat.add_0_r.
  - destruct (exit_keyword u) eqn:Hexit.
    { rewrite loop_exit by done. cbn. by rewrite app_nil_r, Nat.add_0_r. }
    destruct (invoke u h) as [events [a|]] eqn:Hinv.
    + rewrite (loop_turn _ _ _ _ _ Hexit Hinv).
      destruct (IH (h ++ [HumanMessage u; AIMessage a])%list) as [IH1 IH2].
      pose proof (invoke_events u h) as [Hans _].
      rewrite Hinv in Hans. change (answers_of events = [a]) in Hans.
      cbn zeta. cbn [trace final_history].
      change (answers_of (EvInput u :: ?l)) with (answers_of l).
      rewrite answers_of_app, Hans.
      change (answers_of (EvPrint ?x :: ?l)) with (answers_of l).
      cbn [app length take transcript].
      rewrite IH1 at 1. rewrite IH2.
      rewrite <- app_assoc, length_app. cbn [app length]. split; [done|lia].
    + rewrite (loop_raise _ _ _ _ Hexit Hinv).
      pose proof (invoke_events u h) as [Hans _].
      rewrite Hinv in Hans. change (answers_of events = []) in Hans.
      cbn zeta. cbn [trace final_history].
      change (answers_of (EvInput u :: ?l)) with (answers_of l).
      rewrite Hans. cbn. by rewrite app_nil_r, Nat.add_0_r.
Qed.

(** The state handed to the [k]-th invocation of the chain is the
    initial state and the first [2 * k] entries added since. *)
Lemma loop_histories_seen inputs chat_history k h :
  histories_seen (trace (loop inputs chat_history)) !! k = Some h →
  h = take (length chat_history + 2 * k)
        (final_history (loop inputs chat_history)).
Proof.
  revert chat_history k.
  induction inputs as [|u inputs IH]; intros h0 k; [done|].
  destruct (exit_keyword u) eqn:Hexit.
  { by rewrite loop_exit by done. }
  pose proof (invoke_events u h0) as (_ & Hseen & _).
  destruct (invoke u h0) as [events [a|]] eqn:Hinv; cbn [fst] in Hseen.
  - rewrite (loop_turn _ _ _ _ _ Hexit Hinv). cbn zeta.
    cbn [trace final_history].
    change (histories_seen (EvInput u :: ?l)) with (histories_seen l).
    rewrite histories_seen_app, Hseen.
    change (histories_seen (EvPrint ?x :: ?l)) with (histories_seen l).
    destruct k as [|k]; cbn [app lookup list_lookup].
    + intros [= <-].
      destruct (loop_final_history inputs
                  (h0 ++ [HumanMessage u; AIMessage a])%list) as [-> _].
      rewrite <- app_assoc, Nat.add_0_r. by rewrite take_app_length.
    + intros Hk%IH. rewrite Hk, length_app. cbn [length]. f_equal. lia.
  - rewrite (loop_raise _ _ _ _ Hexit Hinv). cbn [trace final_history].
    change (histories_seen (EvInput u :: ?l)) with (histories_seen l).
    rewrite Hseen. destruct k as [|k]; [|done].
    intros [= <-]. rewrite take_ge; [done|lia].
Qed.

End ChatbotProperties.

(** C6: in every session, with [n] the number of turns completed (the
    answers produced), the conversation state holds exactly [2 * n]
    entries: the first [n] inputs and their answers, user message then
    assistant message, in the order of the turns.  The state given to
    the [k]-th chain invocation is the first [2 * k] entries of the final
    state, and from any starting state the loop only appends. *)
Theorem conversation_state_after_turns
    (policy_id_dict : gmap string Document) (vector_store : VectorStore)
    (llm_standalone_query : list Message → string → option string)
    (llm_answer : list Document → list Message → string → option string)
    (inputs : list string) :
  let s := chat_session policy_id_dict vector_store llm_standalone_query
             llm_answer inputs in
  let n := length (answers_of (trace s)) in
  length (final_history s) = 2 * n
  ∧ final_history s = transcript (take n inputs) (answers_of (trace s))
  ∧ (∀ k h, histories_seen (trace s) !! k = Some h →
            h = take (2 * k) (final_history s))
  ∧ (∀ chat_history,
       chat_history `prefix_of`
         final_history (chat_loop policy_id_dict vector_store
                          llm_standalone_query llm_answer inputs
                          chat_history)).
Proof.
  intros s n.
  destruct (loop_final_history policy_id_dict vector_store
              llm_standalone_query llm_answer inputs []) as [Hfinal Hlen].
  split; [exact Hlen|]. split; [exact Hfinal|]. split.
  - intros k h Hk. by apply loop_histories_seen in Hk.
  - intros chat_history.
    destruct (loop_final_history policy_id_dict vector_store
                llm_standalone_query llm_answer inputs chat_history)
      as [-> _].
    by eexists.
Qed.

(** C7: an input equal, letter case ignored, to [exit] or [quit] closes
    the loop with the conversation state untouched and no call of the
    rewrite, resolve or generate step.  Every other input is processed as
    a query: the chain is invoked on it with the current state, the
    rewrite step first and, when that gives a standalone query, the
    resolve step on this query and the generate step on what resolve
    returned, whose answer is the answer of the chain.  With an answer,
    the answer is printed, the input and the answer are appended to the
    state, and the loop goes on with the next line; when the chain
    raises, the loop ends there with the state untouched. *)
Theorem exit_keyword_closes_loop
    (policy_id_dict : gmap string Document) (vector_store : VectorStore)
    (llm_standalone_query : list Message → string → option string)
    (llm_answer : list Document → list Message → string → option string)
    (user_query : string) (inputs' : list string)
    (chat_history : list Message) :
  let s := chat_loop policy_id_dict vector_store llm_standalone_query
             llm_answer (user_query :: inputs') chat_history in
  let invoked := conversational_retrieval_chain_invoke policy_id_dict
                   vector_store llm_standalone_query llm_answer user_query
                   chat_history in
  (exit_keyword user_query = true →
     outcome s = Closed
     ∧ final_history s = chat_history
     ∧ existsb is_chain_call (trace s) = false
     ∧ trace s = [EvInput user_query; EvPrint "[Chatbot]: Goodbye!"])
  ∧ (exit_keyword user_query = false →
     (∃ events,
        invoked.1
        = EvRewrite chat_history user_query
            (llm_standalone_query chat_history user_query) :: events)
     ∧ (∀ query,
          llm_standalone_query chat_history user_query = Some query →
          let docs := resolve vector_store policy_id_dict query in
          EvRetrieve query docs ∈ invoked.1
          ∧ EvGenerate docs chat_history user_query
              (llm_answer docs chat_history user_query) ∈ invoked.1
          ∧ invoked.2 = llm_answer docs chat_history user_query)
     ∧ (llm_standalone_query chat_history user_query = None →
          invoked.2 = None)
     ∧ match invoked.2 with
       | Some answer =>
           let rest :=
             chat_loop policy_id_dict vector_store llm_standalone_query
               llm_answer inputs'
               (chat_history ++ [HumanMessage user_query;
                                 AIMessage answer])%list in
           s = mkSession (outcome rest) (final_history rest)
                 (EvInput user_query :: invoked.1
                    ++ EvPrint ("[Chatbot]: " +:+ answer) :: trace rest)%list
       | None =>
           s = mkSession ChainError chat_history
                 (EvInput user_query :: invoked.1)
       end).
Proof.
  intros s invoked. subst s. split; intros Hexit.
  - by rewrite loop_exit.
  - split; [|split; [|split]].
    + subst invoked. unfold conversational_retrieval_chain_invoke.
      destruct (llm_standalone_query chat_history user_query) as [q|];
        [|by eexists].
      destruct (get_custom_retriever_function vector_store policy_id_dict q)
        as [docs log]. cbn. by eexists.
    + intros query Hquery docs. subst invoked docs.
      unfold conversational_retrieval_chain_invoke, resolve.
      rewrite Hquery.
      destruct (get_custom_retriever_function vector_store policy_id_dict
                  query) as [docs log]. cbn [fst snd].
      split; [|split; [|done]].
      * apply elem_of_cons. right. apply elem_of_cons. by left.
      * do 2 (apply elem_of_cons; right).
        apply elem_of_app. right. apply list_elem_of_singleton. done.
    + intros Hnone. subst invoked.
      unfold conversational_retrieval_chain_invoke. by rewrite Hnone.
    + destruct invoked as [events [answer|]] eqn:Hinv; cbn [fst snd].
      * by rewrite (loop_turn _ _ _ _ _ _ _ _ _ Hexit Hinv).
      * by rewrite (loop_raise _ _ _ _ _ _ _ _ Hexit Hinv).
Qed.

(** A session of two turns closed by a keyword in upper case: the model
    answers with the retrieved row, or says that there is none. *)
Example sample_session :
  let doc := mkDocument "policy_id: POL001
premium: 500" [("row", "0")] in
  let rewrite := λ (_ : list Message) (input : string), Some input in
  let generate := λ (context : list Document) (_ : list Message)
                    (_ : string),
    Some (match context with
          | d :: _ => page_content d
          | [] => "I couldn't find any policy with that ID."
          end) in
  let s := chat_session {["POL001" := doc]} (mkVectorStore (λ _, [doc]))
             rewrite generate
             ["premium of pol001?"; "hi"; "QUIT"; "premium of POL001?"] in
  outcome s = Closed
  ∧ final_history s
    = [HumanMessage "premium of pol001?";
       AIMessage "policy_id: POL001
premium: 500";
       HumanMessage "hi";
       AIMessage "I couldn't find any policy with that ID."]
  ∧ length (answers_of (trace s)) = 2.
Proof. vm_compute. done. Qed.

(** * Further properties of the retriever *)

Lemma upper_char_lower_char c : upper_char (lower_char c) = upper_char c.
Proof. destruct c as [[] [] [] [] [] [] [] []]; reflexivity. Qed.

Lemma upper_lower s : upper (lower s) = upper s.
Proof.
  induction s as [|c s IH]; [done|].
  cbn [lower upper]. by rewrite upper_char_lower_char, IH.
Qed.

Lemma eq_nocase_upper a b : eq_nocase a b = true → upper a = upper b.
Proof.
  intros Hab%eq_nocase_lower.
  by rewrite <- (upper_lower a), <- (upper_lower b), Hab.
Qed.

Lemma retriever_at_most_one dict q :
  (length (_custom_retriever_logic dict q).1 ≤ 1)%nat
  ∧ length (_custom_retriever_logic dict q).2 = 1.
Proof.
  unfold _custom_retriever_logic.
  destruct (policy_id_match q) as [id|]; [|cbn; lia].
  destruct (dict !! id); cbn; lia.
Qed.

(** X1: the retriever returns at most one document, always a value of
    the dictionary, and prints exactly one line. *)
Theorem retriever_returns_at_most_one_entry
    (vectorstore : VectorStore) (policy_lookup_dict : gmap string Document)
    (query : string) :
  let result := get_custom_retriever_function vectorstore policy_lookup_dict
                  query in
  (length result.1 ≤ 1)%nat
  ∧ length result.2 = 1
  ∧ ∀ doc, doc ∈ result.1 → ∃ id, policy_lookup_dict !! id = Some doc.
Proof.
  cbn zeta. unfold get_custom_retriever_function.
  destruct (retriever_at_most_one policy_lookup_dict query) as [Hdocs Hlog].
  split; [done|]. split; [done|].
  intros doc (id & _ & Hid)%retriever_elem. eauto.
Qed.

(** X2: queries that differ only in letter case get the same documents
    and the same log line. *)
Theorem retriever_ignores_letter_case
    (vectorstore : VectorStore) (policy_lookup_dict : gmap string Document)
    (query1 query2 : string) :
  eq_nocase query1 query2 = true →
  get_custom_retriever_function vectorstore policy_lookup_dict query1
  = get_custom_retriever_function vectorstore policy_lookup_dict query2.
Proof.
  intros Heq%eq_nocase_upper.
  unfold get_custom_retriever_function, _custom_retriever_logic,
    policy_id_match.
  by rewrite Heq.
Qed.

(** X3: an identifier the classifier extracted is classified as itself. *)
Theorem classifier_fixes_its_output (query id : string) :
  policy_id_match query = Some id → policy_id_match id = Some id.
Proof.
  intros (ds & -> & Hds)%policy_id_match_shape.
  rewrite <- (append_nil_r ds) at 1. by apply policy_id_match_token.
Qed.

(** X4: text added after a query that names an identifier does not
    change the identifier extracted. *)
Theorem classifier_ignores_text_after_token (query rest id : string) :
  policy_id_match query = Some id →
  policy_id_match (query +:+ rest) = Some id.
Proof.
  unfold policy_id_match. rewrite upper_append.
  apply re_search_POL_d3_append.
Qed.

(** X5: of an identifier written with more than three ASCII digits
    only the first three are read. *)
Theorem classifier_truncates_long_identifier (ds rest : string) :
  all_ascii_digits ds = true → (3 ≤ String.length ds)%nat →
  policy_id_match ("POL" +:+ ds +:+ rest)
  = Some ("POL" +:+ substring 0 3 ds).
Proof.
  intros Hds Hlen.
  destruct ds as [|d1 [|d2 [|d3 ds]]]; cbn in Hlen; try lia.
  cbn in Hds. apply andb_prop in Hds as [H1 [H2 [H3 _]%andb_prop]%andb_prop].
  cbn [substring]. rewrite substring_0_0.
  change (String d1 (String d2 (String d3 ds)) +:+ rest) with
    (String d1 (String d2 (String d3 EmptyString)) +:+ ds +:+ rest).
  by apply policy_id_match_token, digits_ascii_3.
Qed.

(** X6: against a store built from rows, a returned record is one of the
    rows and its extracted identifier is the one extracted from the
    query. *)
Theorem resolve_returns_the_named_row
    (vectorstore : VectorStore) (rows : list Document) (query : string)
    (doc : Document) :
  doc ∈ resolve vectorstore (build_policy_dict rows) query →
  doc ∈ rows ∧ policy_id_of doc = policy_id_match query.
Proof.
  intros (id & Hq & Hid)%retriever_elem.
  apply build_policy_dict_lookup in Hid as [Hin Hid]. by rewrite Hq.
Qed.

(** X7: when the query names an identifier carried by some row,
    [resolve] on the store built from the rows returns the last row that
    carries it. *)
Theorem resolve_finds_last_row
    (vectorstore : VectorStore) (before after : list Document)
    (doc : Document) (query id : string) :
  policy_id_match query = Some id →
  policy_id_of doc = Some id →
  Forall (λ d, policy_id_of d ≠ Some id) after →
  resolve vectorstore (build_policy_dict (before ++ doc :: after)) query
  = [doc].
Proof.
  intros Hq Hid Hafter. unfold resolve, get_custom_retriever_function.
  by rewrite (retriever_found _ query id doc)
    by auto using build_policy_dict_last.
Qed.

(** * Further properties of the record store *)

Lemma remove_dups_length {A} `{EqDecision A} (l : list A) :
  (length (remove_dups l) ≤ length l)%nat
  ∧ (length (remove_dups l) = length l ↔ NoDup l).
Proof.
  induction l as [|x l [IHle IHeq]]; [split; [done|split; [constructor|done]]|].
  cbn [remove_dups length].
  destruct (decide_rel elem_of x l) as [Hx|Hx]; cbn [length].
  - split; [lia|]. split; [lia|]. by intros [Hnx _]%NoDup_cons.
  - split; [lia|]. rewrite NoDup_cons. split.
    + intros [= Hlen]. by apply IHeq in Hlen.
    + intros [_ Hl]. f_equal. by apply IHeq.
Qed.

Lemma omap_length {A B} (f : A → option B) (l : list A) :
  (length (omap f l) ≤ length l)%nat
  ∧ (length (omap f l) = length l ↔ Forall (λ x, is_Some (f x)) l).
Proof.
  induction l as [|x l [IHle IHeq]]; [split; [done|split; [constructor|done]]|].
  cbn [omap list_omap]. fold (omap f l).
  destruct (f x) as [y|] eqn:Hx; cbn [length].
  - split; [lia|]. rewrite Forall_cons, <- IHeq, Hx.
    split; [intros [= ?]; eauto | intros [_ ?]; lia].
  - split; [lia|]. rewrite Forall_cons, Hx.
    split; [lia | intros [[? [=]] _]].
Qed.

Lemma build_policy_dict_size rows :
  size (build_policy_dict rows)
  = length (remove_dups (omap policy_id_of rows)).
Proof.
  rewrite <- size_dom, build_policy_dict_dom.
  apply size_list_to_set_distinct.
Qed.

(** X8: every key of a built store is [POL] followed by a run of one or
    more decimal digits, and nothing else. *)
Theorem store_keys_are_POL_digits
    (rows : list Document) (id : string) (doc : Document) :
  build_policy_dict rows !! id = Some doc →
  ∃ n ds, id = "POL" +:+ ds ∧ digits (S n) ds = true.
Proof.
  intros [_ Hid]%build_policy_dict_lookup. by apply policy_id_of_shape in Hid.
Qed.

(** X9: the store never has more entries than there are rows, and has
    as many exactly when every row carries an identifier and no two rows
    carry the same one. *)
Theorem store_size_at_most_rows (rows : list Document) :
  (size (build_policy_dict rows) ≤ length rows)%nat
  ∧ (size (build_policy_dict rows) = length rows
     ↔ Forall (λ doc, is_Some (policy_id_of doc)) rows
       ∧ NoDup (omap policy_id_of rows)).
Proof.
  rewrite build_policy_dict_size.
  destruct (remove_dups_length (omap policy_id_of rows)) as [Hle1 Heq1].
  destruct (omap_length policy_id_of rows) as [Hle2 Heq2].
  split; [lia|]. rewrite <- Heq1, <- Heq2. lia.
Qed.

(** X10: the store of two batches of rows is the store of the second
    batch completed by the store of the first, entries of the second
    taking precedence; loading the same rows twice changes nothing. *)
Theorem store_of_appended_rows (rows1 rows2 : list Document) :
  build_policy_dict (rows1 ++ rows2)
  = build_policy_dict rows2 ∪ build_policy_dict rows1
  ∧ build_policy_dict (rows1 ++ rows1) = build_policy_dict rows1.
Proof.
  assert (∀ r1 r2, build_policy_dict (r1 ++ r2)
                   = build_policy_dict r2 ∪ build_policy_dict r1) as Happ.
  { intros r1 r2. induction r2 as [|d r2 IH] using rev_ind.
    - rewrite app_nil_r.
      change (build_policy_dict []) with (∅ : gmap string Document).
      by rewrite (left_id_L ∅ (∪)).
    - rewrite app_assoc, !build_policy_dict_snoc, IH.
      unfold policy_dict_step. destruct (policy_id_of d) as [id|]; [|done].
      by rewrite insert_union_l. }
  split; [apply Happ|]. rewrite Happ. apply map_union_idemp.
Qed.

Lemma build_policy_dict_lookup_iff rows id doc :
  NoDup (omap policy_id_of rows) →
  build_policy_dict rows !! id = Some doc
  ↔ doc ∈ rows ∧ policy_id_of doc = Some id.
Proof.
  intros Hnodup. split; [apply build_policy_dict_lookup|].
  intros [(before & after & ->)%list_elem_of_split Hid].
  apply build_policy_dict_last; [done|].
  rewrite omap_app in Hnodup. apply NoDup_app in Hnodup as (_ & _ & Hnodup).
  change (omap policy_id_of (doc :: after)) with
    (match policy_id_of doc with
     | Some y => y :: omap policy_id_of after
     | None => omap policy_id_of after
     end) in Hnodup.
  rewrite Hid in Hnodup. apply NoDup_cons in Hnodup as [Hnotin _].
  apply Forall_forall. intros d Hd Hsame. apply Hnotin.
  apply list_elem_of_omap. eauto.
Qed.

(** X11: when no two rows carry the same identifier, the store does not
    depend on the order of the rows. *)
Theorem store_independent_of_row_order (rows rows' : list Document) :
  NoDup (omap policy_id_of rows) →
  rows ≡ₚ rows' →
  build_policy_dict rows = build_policy_dict rows'.
Proof.
  intros Hnodup Hperm. apply map_eq. intros id. apply option_eq. intros doc.
  rewrite !build_policy_dict_lookup_iff; [by rewrite Hperm|by rewrite <- Hperm|done].
Qed.

Lemma policy_id_of_field_first n ds rest meta :
  ds ≠ EmptyString → digits n ds = true → leading_digit rest = None →
  policy_id_of (mkDocument ("policy_id: POL" +:+ ds +:+ rest) meta)
  = Some ("POL" +:+ ds).
Proof.
  intros Hne Hds Hrest. unfold policy_id_of. cbn [page_content].
  apply re_search_here. unfold match_policy_id_field.
  assert (match_literal "policy_id: POL" ("policy_id: POL" +:+ ds +:+ rest)
          = Some (ds +:+ rest)) as -> by by apply match_literal_Some.
  cbn [mbind option_bind]. rewrite (span_digits_digits n) by done.
  by destruct ds.
Qed.

(** X12: from a row whose text starts with [policy_id: POL], then a run
    of decimal digits, then anything that does not start with a decimal
    digit, exactly [POL] and those digits are extracted. *)
Theorem identifier_of_serialized_row
    (n : nat) (ds rest : string) (meta : list (string * string)) :
  ds ≠ EmptyString → digits n ds = true → leading_digit rest = None →
  policy_id_of (mkDocument ("policy_id: POL" +:+ ds +:+ rest) meta)
  = Some ("POL" +:+ ds).
Proof. apply policy_id_of_field_first. Qed.

(** * Further properties of the dialogue loop *)

Section SessionProperties.

Variable policy_id_dict : gmap string Document.
Variable vector_store : VectorStore.
Variable llm_standalone_query : list Message → string → option string.
Variable llm_answer :
  list Document → list Message → string → option string.

Local Abbreviation invoke :=
  (conversational_retrieval_chain_invoke policy_id_dict vector_store
     llm_standalone_query llm_answer).
Local Abbreviation loop :=
  (chat_loop policy_id_dict vector_store llm_standalone_query llm_answer).

Lemma inputs_read_app tr1 tr2 :
  inputs_read (tr1 ++ tr2) = (inputs_read tr1 ++ inputs_read tr2)%list.
Proof. apply omap_app. Qed.

Lemma contexts_of_app tr1 tr2 :
  contexts_of (tr1 ++ tr2) = (contexts_of tr1 ++ contexts_of tr2)%list.
Proof. apply omap_app. Qed.

Lemma retrievals_of_app tr1 tr2 :
  retrievals_of (tr1 ++ tr2)
  = (retrievals_of tr1 ++ retrievals_of tr2)%list.
Proof. apply omap_app. Qed.

Lemma inputs_read_prints log : inputs_read (EvPrint <$> log) = [].
Proof. by induction log. Qed.

Lemma contexts_of_prints log : contexts_of (EvPrint <$> log) = [].
Proof. by induction log. Qed.

Lemma retrievals_of_prints log : retrievals_of (EvPrint <$> log) = [].
Proof. by induction log. Qed.

(** What one invocation of the chain leaves in the trace. *)
Lemma invoke_trace input chat_history :
  inputs_read (invoke input chat_history).1 = []
  ∧ contexts_of (invoke input chat_history).1
    = (retrievals_of (invoke input chat_history).1).*2
  ∧ Forall (λ r, r.2 = resolve vector_store policy_id_dict r.1)
      (retrievals_of (invoke input chat_history).1).
Proof.
  unfold conversational_retrieval_chain_invoke, resolve.
  destruct (llm_standalone_query chat_history input) as [query|];
    [|by repeat split].
  destruct (get_custom_retriever_function _ _ query) as [docs log] eqn:Hret.
  cbn [fst snd]. unfold inputs_read, contexts_of, retrievals_of.
  cbn [omap list_omap app]. rewrite !omap_app.
  fold (inputs_read (EvPrint <$> log)) (contexts_of (EvPrint <$> log))
    (retrievals_of (EvPrint <$> log)).
  rewrite inputs_read_prints, contexts_of_prints, retrievals_of_prints.
  cbn. repeat split. repeat constructor. cbn. by rewrite Hret.
Qed.

(** X13: a session reads a prefix of the console lines, and is the same
    session when run on that prefix alone: nothing after an exit keyword
    or after a failed turn has any effect. *)
Theorem session_reads_a_prefix
    (inputs : list string) (chat_history : list Message) :
  let s := loop inputs chat_history in
  inputs_read (trace s) `prefix_of` inputs
  ∧ loop (inputs_read (trace s)) chat_history = s.
Proof.
  cbn zeta. revert chat_history.
  induction inputs as [|u inputs IH]; intros h; [by split|].
  destruct (exit_keyword u) eqn:Hexit.
  { rewrite loop_exit by done. cbn [trace].
    change (inputs_read _) with [u]. split; [by exists inputs|].
    by rewrite loop_exit. }
  pose proof (invoke_trace u h) as [Hread _].
  destruct (invoke u h) as [events [a|]] eqn:Hinv; cbn [fst] in Hread.
  - rewrite (loop_turn _ _ _ _ _ _ _ _ _ Hexit Hinv). cbn zeta. cbn [trace].
    destruct (IH (h ++ [HumanMessage u; AIMessage a])%list) as [Hpre Hrun].
    change (inputs_read (EvInput u :: ?l)) with (u :: inputs_read l).
    rewrite inputs_read_app, Hread. cbn [app].
    change (inputs_read (EvPrint ?x :: ?l)) with (inputs_read l).
    split; [by apply prefix_cons|].
    rewrite (loop_turn _ _ _ _ _ _ _ _ _ Hexit Hinv). cbn zeta.
    by rewrite Hrun.
  - rewrite (loop_raise _ _ _ _ _ _ _ _ Hexit Hinv). cbn [trace].
    change (inputs_read (EvInput u :: ?l)) with (u :: inputs_read l).
    rewrite Hread. split; [by exists inputs|].
    by rewrite (loop_raise _ _ _ _ _ _ _ _ Hexit Hinv).
Qed.

(** X14: when the loop gets through a first batch of lines and is left
    waiting for input, running it on the batch followed by more lines is
    running it on those lines from the state reached, the traces put end
    to end. *)
Theorem session_continues_after_batch
    (inputs1 inputs2 : list string) (chat_history : list Message) :
  outcome (loop inputs1 chat_history) = EOFError →
  let s1 := loop inputs1 chat_history in
  let s2 := loop inputs2 (final_history s1) in
  loop (inputs1 ++ inputs2) chat_history
  = mkSession (outcome s2) (final_history s2) (trace s1 ++ trace s2).
Proof.
  cbn zeta. revert chat_history.
  induction inputs1 as [|u inputs1 IH]; intros h.
  - intros _. cbn [app chat_loop final_history trace]. by destruct (loop inputs2 h).
  - destruct (exit_keyword u) eqn:Hexit.
    { by rewrite loop_exit by done. }
    destruct (invoke u h) as [events [a|]] eqn:Hinv.
    + change ((u :: inputs1) ++ inputs2)%list with (u :: (inputs1 ++ inputs2))%list.
      rewrite !(loop_turn _ _ _ _ _ _ _ _ _ Hexit Hinv). cbn zeta.
      cbn [outcome final_history trace]. intros Hout.
      rewrite (IH _ Hout). cbn [outcome final_history trace].
      f_equal. cbn [app]. f_equal. rewrite <- app_assoc. by cbn [app].
    + by rewrite (loop_raise _ _ _ _ _ _ _ _ Hexit Hinv).
Qed.

Lemma loop_contexts inputs chat_history :
  let tr := trace (loop inputs chat_history) in
  Forall (λ r, r.2 = resolve vector_store policy_id_dict r.1)
    (retrievals_of tr)
  ∧ contexts_of tr = (retrievals_of tr).*2.
Proof.
  cbn zeta. revert chat_history.
  induction inputs as [|u inputs IH]; intros h; [by split|].
  destruct (exit_keyword u) eqn:Hexit.
  { rewrite loop_exit by done. by split. }
  pose proof (invoke_trace u h) as (_ & Hc & Hr).
  destruct (invoke u h) as [events [a|]] eqn:Hinv; cbn [fst] in Hc, Hr.
  - rewrite (loop_turn _ _ _ _ _ _ _ _ _ Hexit Hinv). cbn zeta. cbn [trace].
    destruct (IH (h ++ [HumanMessage u; AIMessage a])%list) as [IH1 IH2].
    change (retrievals_of (EvInput u :: ?l)) with (retrievals_of l).
    change (contexts_of (EvInput u :: ?l)) with (contexts_of l).
    rewrite retrievals_of_app, contexts_of_app.
    change (retrievals_of (EvPrint ?x :: ?l)) with (retrievals_of l).
    change (contexts_of (EvPrint ?x :: ?l)) with (contexts_of l).
    split; [by apply Forall_app|]. by rewrite fmap_app, Hc, IH2.
  - rewrite (loop_raise _ _ _ _ _ _ _ _ Hexit Hinv). cbn [trace].
    change (retrievals_of (EvInput u :: ?l)) with (retrievals_of l).
    change (contexts_of (EvInput u :: ?l)) with (contexts_of l).
    by split.
Qed.

(** X15: in every session, each retrieval returns what [resolve] gives
    for its query, and each context handed to the answer step is the
    result of a retrieval: at most one document, taken from the
    dictionary. *)
Theorem session_contexts_come_from_resolve
    (inputs : list string) (chat_history : list Message) :
  let tr := trace (loop inputs chat_history) in
  Forall (λ r, r.2 = resolve vector_store policy_id_dict r.1)
    (retrievals_of tr)
  ∧ contexts_of tr = (retrievals_of tr).*2
  ∧ Forall (λ ctx, (length ctx ≤ 1)%nat
                   ∧ ∀ doc, doc ∈ ctx →
                       ∃ id, policy_id_dict !! id = Some doc)
      (contexts_of tr).
Proof.
  cbn zeta. destruct (loop_contexts inputs chat_history) as [Hret Hctx].
  cbn zeta in Hret, Hctx.
  split; [done|]. split; [done|].
  rewrite Hctx. apply Forall_fmap. eapply Forall_impl; [exact Hret|].
  intros [q docs] Hdocs. cbn in *. subst docs.
  split; [apply (retriever_at_most_one policy_id_dict q)|].
  intros doc (id & _ & Hid)%retriever_elem. eauto.
Qed.

(** The state the loop is left in when neither model call ever raises. *)
Lemma loop_without_failures inputs chat_history :
  (∀ h input, is_Some (llm_standalone_query h input)) →
  (∀ context h input, is_Some (llm_answer context h input)) →
  let s := loop inputs chat_history in
  length (final_history s)
  = length chat_history + 2 * length (before_exit inputs)
  ∧ outcome s
    = (if (length (before_exit inputs) <? length inputs)%nat then Closed
       else EOFError).
Proof.
  intros Hrewrite Hanswer. cbn zeta. revert chat_history.
  induction inputs as [|u inputs IH]; intros h.
  - cbn. split; [lia|done].
  - cbn [before_exit]. destruct (exit_keyword u) eqn:Hexit.
    { rewrite loop_exit by done. cbn. split; [lia|done]. }
    destruct (invoke u h) as [events [a|]] eqn:Hinv.
    + rewrite (loop_turn _ _ _ _ _ _ _ _ _ Hexit Hinv). cbn zeta.
      cbn [final_history outcome length].
      destruct (IH (h ++ [HumanMessage u; AIMessage a])%list) as [-> ->].
      rewrite length_app. cbn [length]. split; [lia|done].
    + exfalso. unfold conversational_retrieval_chain_invoke in Hinv.
      destruct (Hrewrite h u) as [q Hq]. rewrite Hq in Hinv.
      destruct (get_custom_retriever_function _ _ q) as [docs log].
      destruct (Hanswer docs h u) as [a Ha]. rewrite Ha in Hinv. done.
Qed.

End SessionProperties.

(** X16: with a model that never raises, a session completes one turn
    for every line before the first exit keyword and no other: the state
    holds twice that many entries, and the loop ends closed if a keyword
    was entered, at end of input otherwise. *)
Theorem session_without_failures
    (policy_id_dict : gmap string Document) (vector_store : VectorStore)
    (llm_standalone_query : list Message → string → option string)
    (llm_answer : list Document → list Message → string → option string)
    (inputs : list string) :
  (∀ h input, is_Some (llm_standalone_query h input)) →
  (∀ context h input, is_Some (llm_answer context h input)) →
  let s := chat_session policy_id_dict vector_store llm_standalone_query
             llm_answer inputs in
  length (final_history s) = 2 * length (before_exit inputs)
  ∧ outcome s
    = (if (length (before_exit inputs) <? length inputs)%nat then Closed
       else EOFError).
Proof.
  intros Hrewrite Hanswer.
  apply (loop_without_failures _ _ _ _ inputs [] Hrewrite Hanswer).
Qed.

(** * Start-up *)

Lemma load_and_prepare_data_result fs csv_path :
  (load_and_prepare_data fs csv_path).1
  = if path_exists fs csv_path
    then Returned (csv_rows fs csv_path,
                   build_policy_dict (csv_rows fs csv_path))
    else SystemExit.
Proof.
  unfold load_and_prepare_data. by destruct (path_exists fs csv_path).
Qed.

Lemma load_persisted_vector_store_result fs pf embeddings :
  (load_persisted_vector_store fs pf embeddings).1
  = if negb (path_exists fs PERSIST_DIRECTORY)
       || bool_decide (listdir pf PERSIST_DIRECTORY = [])
    then SystemExit
    else Returned (chroma_open pf PERSIST_DIRECTORY
                     (default (mkEmbeddings "models/embedding-001")
                        embeddings)).
Proof.
  unfold load_persisted_vector_store.
  destruct (negb _ || _); [done|]. by destruct embeddings.
Qed.

Lemma chatbot_main_result fs pf llm_model rewrite generate inputs :
  (chatbot_main fs pf llm_model rewrite generate inputs).1
  = if path_exists fs CSV_FILE_PATH && path_exists fs PERSIST_DIRECTORY
       && negb (bool_decide (listdir pf PERSIST_DIRECTORY = []))
    then Returned
           (chat_loop (build_policy_dict (csv_rows fs CSV_FILE_PATH))
              (chroma_open pf PERSIST_DIRECTORY
                 (mkEmbeddings "models/embedding-001"))
              rewrite generate inputs [])
    else SystemExit.
Proof.
  unfold chatbot_main.
  pose proof (load_and_prepare_data_result fs CSV_FILE_PATH) as Hdata.
  destruct (load_and_prepare_data fs CSV_FILE_PATH) as [[[docs dict]|] log1];
    cbn [fst] in Hdata;
    destruct (path_exists fs CSV_FILE_PATH); try done.
  simplify_eq.
  pose proof (load_persisted_vector_store_result fs pf None) as Hstore.
  destruct (load_persisted_vector_store fs pf None) as [[vs|] log2];
    cbn [fst] in Hstore;
    destruct (path_exists fs PERSIST_DIRECTORY);
    destruct (bool_decide (listdir pf PERSIST_DIRECTORY = []));
    cbn in Hstore; by simplify_eq.
Qed.

(** X18: in a run of the chatbot, whatever the model and the user do,
    every context handed to the answer step is the result of a retrieval
    on a standalone query, and every document so retrieved is a row of
    the data file whose extracted identifier is the one extracted from
    that query. *)
Theorem chatbot_context_is_the_named_row
    (fs : FileSystem) (pf : Platform) (llm_model : string)
    (llm_standalone_query : list Message → string → option string)
    (llm_answer : list Document → list Message → string → option string)
    (inputs : list string) (s : Session) :
  (chatbot_main fs pf llm_model llm_standalone_query llm_answer inputs).1
  = Returned s →
  contexts_of (trace s) = (retrievals_of (trace s)).*2
  ∧ Forall (λ r, (length r.2 ≤ 1)%nat
                 ∧ ∀ doc, doc ∈ r.2 →
                     doc ∈ csv_rows fs CSV_FILE_PATH
                     ∧ policy_id_of doc = policy_id_match r.1)
      (retrievals_of (trace s)).
Proof.
  rewrite chatbot_main_result.
  destruct (_ && _ && _); [|done]. intros [= <-].
  set (dict := build_policy_dict (csv_rows fs CSV_FILE_PATH)).
  set (vs := chroma_open pf PERSIST_DIRECTORY _).
  destruct (loop_contexts dict vs llm_standalone_query llm_answer inputs [])
    as (Hret & Hctx).
  cbn zeta in Hret, Hctx. split; [done|].
  eapply Forall_impl; [exact Hret|]. intros [q docs] Hdocs.
  cbn [fst snd] in *. subst docs. split.
  - apply (retriever_at_most_one dict q).
  - intros doc (id & Hq & Hid)%retriever_elem.
    apply build_policy_dict_lookup in Hid as [Hin Hid]. by rewrite Hq.
Qed.

(** X19: the ingestion script exits only when the data file is missing:
    its own test on the vector-store directory keeps the loader from
    exiting.  The retriever it builds is the dictionary lookup on the
    rows of the file, whether the vector store was loaded or created. *)
Theorem ingestion_script_exits_only_without_data
    (fs : FileSystem) (pf : Platform) :
  (utils_main_setup fs pf).1
  = if path_exists fs "insurance_policies_sample_100_final.csv"
    then Returned
           (_custom_retriever_logic
              (build_policy_dict
                 (csv_rows fs "insurance_policies_sample_100_final.csv")))
    else SystemExit.
Proof.
  unfold utils_main_setup. cbn zeta.
  pose proof (load_and_prepare_data_result fs
                "insurance_policies_sample_100_final.csv") as Hdata.
  destruct (load_and_prepare_data fs _) as [[[docs dict]|] log1];
    cbn [fst] in Hdata;
    destruct (path_exists fs "insurance_policies_sample_100_final.csv");
    try done.
  simplify_eq.
  pose proof (load_persisted_vector_store_result fs pf
                (Some (mkEmbeddings "models/embedding-001"))) as Hstore.
  destruct (load_persisted_vector_store fs pf _) as [loaded log2].
  cbn [fst] in Hstore.
  destruct (path_exists fs PERSIST_DIRECTORY);
    destruct (bool_decide (listdir pf PERSIST_DIRECTORY = []));
    cbn in Hstore |- *; by subst.
Qed.

(** * The dataset generator *)

Lemma py_round_cases x ndigits :
  (ndigits < 0)%Z →
  let m := (10 ^ (- ndigits))%Z in
  (0 < m)%Z
  ∧ ∃ q, DatasetGenerator.py_round x ndigits = (q * m)%Z
         ∧ (2 * Z.abs (q * m - x) ≤ m)%Z
         ∧ ((2 * Z.abs (q * m - x) = m)%Z → Z.even q = true)
         ∧ (x mod m = 0 → q * m = x)%Z.
Proof.
  intros Hneg m.
  assert (0 < m)%Z as Hm by (apply Z.pow_pos_nonneg; lia).
  split; [done|].
  unfold DatasetGenerator.py_round.
  destruct (Z.leb_spec 0 ndigits) as [|_]; [lia|]. fold m.
  pose proof (Z.div_mod x m ltac:(lia)) as Hx.
  pose proof (Z.mod_pos_bound x m Hm) as Hr.
  set (q := (x / m)%Z) in *. set (r := (x mod m)%Z) in *.
  destruct (Z.ltb_spec (2 * r) m) as [Hlow|Hhigh].
  { exists q. repeat split; [lia | lia | lia]. }
  destruct (Z.ltb_spec m (2 * r)) as [Hup|Htie].
  { exists (q + 1)%Z. repeat split; [lia | lia | lia]. }
  destruct (Z.even q) eqn:Heven.
  - exists q. repeat split; [lia | done | lia].
  - exists (q + 1)%Z. repeat split; [lia | | lia].
    intros _. rewrite Z.even_add, Heven. done.
Qed.

(** X20: [round(x, -k)] for positive [k] is a multiple of [10 ** k] at
    most half a unit away from [x], the even multiple when two are
    equally near; it leaves multiples unchanged and stays between any two
    multiples that enclose [x]. *)
Theorem py_round_nearest_multiple (x ndigits : Z) :
  (ndigits < 0)%Z →
  let m := (10 ^ (- ndigits))%Z in
  let y := DatasetGenerator.py_round x ndigits in
  (y mod m = 0)%Z
  ∧ (2 * Z.abs (y - x) ≤ m)%Z
  ∧ ((2 * Z.abs (y - x) = m)%Z → Z.even (y / m) = true)
  ∧ DatasetGenerator.py_round y ndigits = y
  ∧ ∀ lo hi, (lo mod m = 0)%Z → (hi mod m = 0)%Z →
             (lo ≤ x ≤ hi)%Z → (lo ≤ y ≤ hi)%Z.
Proof.
  intros Hneg m y.
  destruct (py_round_cases x ndigits Hneg) as (Hm & q & Hy & Hnear & Htie & _).
  destruct (py_round_cases (q * 10 ^ (- ndigits)) ndigits Hneg)
    as (_ & q' & Hy' & _ & _ & Hfix).
  fold m in Hm, Hy, Hnear, Htie, Hy', Hfix. fold y in Hy.
  rewrite <- Hy in Hy', Hfix. fold y. clearbody m y. subst y.
  assert ((q * m) mod m = 0)%Z as Hmult by (apply Z.mod_mul; lia).
  split; [done|]. split; [done|]. split.
  { intros Heq. rewrite Z.div_mul by lia. auto. }
  split; [rewrite Hy'; by apply Hfix|].
  intros lo hi Hlo Hhi Hx.
  apply Z.mod_divide in Hlo as [a ->]; [|lia].
  apply Z.mod_divide in Hhi as [b ->]; [|lia].
  assert (2 * (q * m - x) ≤ m ∧ 2 * (x - q * m) ≤ m)%Z as [H1 H2] by lia.
  assert (a ≤ q)%Z as Ha.
  { apply Z.nlt_ge. intros Hlt.
    assert (q * m ≤ (a - 1) * m)%Z by (apply Z.mul_le_mono_nonneg_r; lia).
    lia. }
  assert (q ≤ b)%Z as Hb.
  { apply Z.nlt_ge. intros Hlt.
    assert ((b + 1) * m ≤ q * m)%Z by (apply Z.mul_le_mono_nonneg_r; lia).
    lia. }
  split; apply Z.mul_le_mono_nonneg_r; lia.
Qed.

Section GeneratorProperties.

Variable entropy : nat → Z.
Variable fake_name : nat → string.
Variable date_after : nat → Z → string.

Local Abbreviation randint := (DatasetGenerator.randint entropy).
Local Abbreviation choice := (DatasetGenerator.choice entropy).
Local Abbreviation generate_row :=
  (DatasetGenerator.generate_row entropy fake_name date_after).
Local Abbreviation generate_rows :=
  (DatasetGenerator.generate_rows entropy fake_name date_after).

Lemma randint_draw a b pos :
  (a ≤ b)%Z →
  ∃ v, randint a b pos = Some (v, S pos) ∧ (a ≤ v ≤ b)%Z.
Proof.
  intros Hab. unfold DatasetGenerator.randint.
  destruct (Z.ltb_spec b a) as [|_]; [lia|].
  exists (a + entropy pos mod (b - a + 1))%Z. split; [done|].
  pose proof (Z.mod_pos_bound (entropy pos) (b - a + 1) ltac:(lia)). lia.
Qed.

Lemma choice_draw {A} (seq : list A) pos :
  seq ≠ [] → ∃ x, choice seq pos = Some (x, S pos) ∧ x ∈ seq.
Proof.
  intros Hne. unfold DatasetGenerator.choice.
  destruct seq as [|y seq]; [done|].
  set (l := y :: seq). set (n := Z.of_nat (length l)).
  assert (0 < n)%Z as Hn by (unfold n, l; cbn [length]; lia).
  pose proof (Z.mod_pos_bound (entropy pos) n Hn) as Hk.
  unfold mbind, DatasetGenerator.rand_bind, DatasetGenerator.randbelow.
  destruct (lookup_lt_is_Some_2 l (Z.to_nat (entropy pos mod n)))
    as [x Hx]; [unfold n in *; lia|].
  rewrite Hx. exists x. split; [done|]. by eapply list_elem_of_lookup_2.
Qed.

(** One line: four draws, never an exception, a well-formed line. *)
Lemma generate_row_valid i pos :
  ∃ row, generate_row i pos = Some (row, 4 + pos) ∧ valid_row i row.
Proof.
  unfold DatasetGenerator.generate_row.
  destruct (choice_draw (DatasetGenerator.policy_types.*1) pos)
    as (name & Hname & Hin); [done|].
  unfold mbind, DatasetGenerator.rand_bind. rewrite Hname.
  assert (∃ cr pr,
            DatasetGenerator.policy_types_get DatasetGenerator.policy_types
              name = Some (cr, pr)
            ∧ (cr.1 ≤ cr.2)%Z ∧ (cr.1 mod 1000 = 0)%Z ∧ (cr.2 mod 1000 = 0)%Z
            ∧ (pr.1 ≤ pr.2)%Z ∧ (pr.1 mod 100 = 0)%Z ∧ (pr.2 mod 100 = 0)%Z)
    as (cr & pr & Hget & Hc & Hc1 & Hc2 & Hp & Hp1 & Hp2).
  { cbn in Hin.
    repeat (apply elem_of_cons in Hin as [->|Hin];
            [eexists _, _; split; [reflexivity|]; cbn; done|]).
    by apply elem_of_nil in Hin. }
  rewrite Hget. destruct cr as [clo chi], pr as [plo phi]. cbn [fst snd] in *.
  destruct (randint_draw clo chi (S pos) Hc) as (coverage & -> & Hcov).
  destruct (randint_draw plo phi (S (S pos)) Hp) as (premium & -> & Hprem).
  destruct (randint_draw 30 365 (S (S (S pos))) ltac:(lia))
    as (days & -> & Hdays).
  eexists. split; [reflexivity|].
  split; [reflexivity|]. exists (clo, chi), (plo, phi).
  cbn [DatasetGenerator.policy_type DatasetGenerator.coverage_amount
       DatasetGenerator.premium fst snd].
  destruct (py_round_nearest_multiple coverage (-3) eq_refl)
    as (Hm1 & _ & _ & _ & Hb1).
  destruct (py_round_nearest_multiple premium (-2) eq_refl)
    as (Hm2 & _ & _ & _ & Hb2).
  cbn zeta in Hm1, Hb1, Hm2, Hb2.
  change (10 ^ (- (-3)))%Z with 1000%Z in Hm1, Hb1.
  change (10 ^ (- (-2)))%Z with 100%Z in Hm2, Hb2.
  split; [done|]. split; [by apply Hb1|]. split; [done|].
  split; [by apply Hb2|done].
Qed.

Lemma generate_rows_valid indices pos :
  ∃ rows, generate_rows indices pos = Some (rows, 4 * length indices + pos)
          ∧ Forall2 valid_row indices rows.
Proof.
  revert pos. induction indices as [|i indices IH]; intros pos.
  - exists []. split; [done|constructor].
  - cbn [DatasetGenerator.generate_rows].
    unfold mbind, DatasetGenerator.rand_bind.
    destruct (generate_row_valid i pos) as (row & -> & Hrow).
    destruct (IH (4 + pos)) as (rows & -> & Hrows).
    exists (row :: rows). split; [|by constructor].
    unfold mret, DatasetGenerator.rand_ret. cbn [length].
    do 2 f_equal. lia.
Qed.

Lemma data_valid :
  ∃ rows, DatasetGenerator.data entropy fake_name date_after = Some rows
          ∧ Forall2 valid_row (seq 1 100) rows.
Proof.
  unfold DatasetGenerator.data.
  destruct (generate_rows_valid (seq 1 100) 0) as (rows & -> & Hrows).
  by exists rows.
Qed.

End GeneratorProperties.

(** X21: whatever the random draws, the generator raises no exception
    and produces exactly 100 lines; line [i] carries the identifier of
    [i], a type of the table, a coverage that is a whole number of
    thousands and a premium that is a whole number of hundreds, both
    inside the ranges of that type: rounding never leaves the range. *)
Theorem generator_produces_valid_rows
    (entropy : nat → Z) (fake_name : nat → string)
    (date_after : nat → Z → string) :
  ∃ rows,
    DatasetGenerator.data entropy fake_name date_after = Some rows
    ∧ length rows = 100
    ∧ Forall2 valid_row (seq 1 100) rows.
Proof.
  destruct (data_valid entropy fake_name date_after) as (rows & Hdata & Hrows).
  exists rows. split; [done|]. split; [|done].
  apply Forall2_length in Hrows. by rewrite <- Hrows, length_seq.
Qed.

Lemma generated_ids_checked :
  forallb (λ i, bool_decide (policy_id_match (generated_id i)
                             = Some (generated_id i))) (seq 1 100) = true
  ∧ NoDup (generated_id <$> seq 1 100).
Proof.
  split; [by vm_compute|].
  assert (bool_decide (NoDup (generated_id <$> seq 1 100)) = true) as Hdec
    by (vm_compute; reflexivity).
  by apply bool_decide_eq_true in Hdec.
Qed.

Lemma generated_id_token i :
  (1 ≤ i ≤ 100)%nat →
  policy_id_match (generated_id i) = Some (generated_id i).
Proof.
  intros Hi. destruct generated_ids_checked as [Hall _].
  rewrite forallb_forall in Hall.
  specialize (Hall i ltac:(apply in_seq; lia)).
  by apply bool_decide_eq_true in Hall.
Qed.

Lemma valid_rows_ids rows :
  Forall2 valid_row (seq 1 100) rows →
  DatasetGenerator.policy_id <$> rows = generated_id <$> seq 1 100.
Proof.
  generalize (seq 1 100). intros indices Hrows.
  induction Hrows as [|i row indices rows [Hid _] _ IH]; [done|].
  cbn. by rewrite Hid, IH.
Qed.

(** X22: the 100 identifiers the generator issues are pairwise distinct,
    and each is [POL] and exactly three digits, so that the classifier,
    given an identifier as the query, returns it unchanged. *)
Theorem generated_identifiers_are_tokens
    (entropy : nat → Z) (fake_name : nat → string)
    (date_after : nat → Z → string) :
  ∃ rows,
    DatasetGenerator.data entropy fake_name date_after = Some rows
    ∧ NoDup (DatasetGenerator.policy_id <$> rows)
    ∧ Forall (λ row,
        policy_id_match (DatasetGenerator.policy_id row)
        = Some (DatasetGenerator.policy_id row)) rows.
Proof.
  destruct (data_valid entropy fake_name date_after) as (rows & Hdata & Hrows).
  exists rows. split; [done|].
  pose proof (valid_rows_ids rows Hrows) as Hids.
  split; [rewrite Hids; apply generated_ids_checked|].
  apply Forall_fmap with (f := DatasetGenerator.policy_id)
    (P := λ id, policy_id_match id = Some id).
  rewrite Hids. apply Forall_fmap, Forall_forall.
  intros i Hi%elem_of_seq. apply generated_id_token. lia.
Qed.

(** A document that starts with the identifier field of a line carries
    the identifier of that line, when the identifier is a token. *)
Lemma serialized_row_id row doc :
  policy_id_match (DatasetGenerator.policy_id row)
  = Some (DatasetGenerator.policy_id row) →
  serializes row doc →
  policy_id_of doc = Some (DatasetGenerator.policy_id row).
Proof.
  intros (ds & Hid & Hds)%policy_id_match_shape [rest Htext].
  destruct doc as [text meta]. cbn [page_content] in Htext. subst text.
  rewrite Hid.
  apply (policy_id_of_field_first 3 ds (String "010" rest) meta);
    [by intros ->|done|done].
Qed.

Lemma serialized_rows_ids rows docs :
  Forall (λ row, policy_id_match (DatasetGenerator.policy_id row)
                 = Some (DatasetGenerator.policy_id row)) rows →
  Forall2 serializes rows docs →
  omap policy_id_of docs = DatasetGenerator.policy_id <$> rows.
Proof.
  intros Hrows Hdocs.
  induction Hdocs as [|row doc rows docs Hdoc _ IH]; [done|].
  apply Forall_cons in Hrows as [Hrow Hrows].
  change (omap policy_id_of (doc :: docs)) with
    (match policy_id_of doc with
     | Some y => y :: omap policy_id_of docs
     | None => omap policy_id_of docs
     end).
  rewrite (serialized_row_id row doc Hrow Hdoc), IH by done. done.
Qed.

Lemma generated_dataset_store entropy fake_name date_after rows docs :
  DatasetGenerator.data entropy fake_name date_after = Some rows →
  Forall2 serializes rows docs →
  size (build_policy_dict docs) = 100
  ∧ DatasetGenerator.policy_id <$> rows = generated_id <$> seq 1 100
  ∧ ∀ k row doc vectorstore query,
      rows !! k = Some row → docs !! k = Some doc →
      policy_id_match query = Some (DatasetGenerator.policy_id row) →
      resolve vectorstore (build_policy_dict docs) query = [doc].
Proof.
  intros Hdata Hdocs.
  destruct (data_valid entropy fake_name date_after)
    as (rows' & Hdata' & Hvalid).
  rewrite Hdata in Hdata'. injection Hdata' as <-.
  pose proof (valid_rows_ids rows Hvalid) as Hids.
  assert (Forall (λ row, policy_id_match (DatasetGenerator.policy_id row)
                         = Some (DatasetGenerator.policy_id row)) rows)
    as Htokens.
  { apply Forall_fmap with (f := DatasetGenerator.policy_id)
      (P := λ id, policy_id_match id = Some id).
    rewrite Hids. apply Forall_fmap, Forall_forall.
    intros i Hi%elem_of_seq. apply generated_id_token. lia. }
  pose proof (serialized_rows_ids rows docs Htokens Hdocs) as Homap.
  assert (NoDup (omap policy_id_of docs)) as Hnodup
    by (rewrite Homap, Hids; apply generated_ids_checked).
  split; [|split; [done|]].
  - rewrite build_policy_dict_size.
    apply (remove_dups_length (omap policy_id_of docs)) in Hnodup as ->.
    by rewrite Homap, Hids, length_fmap, length_seq.
  - intros k row doc vs query Hrow Hdoc Hq.
    unfold resolve, get_custom_retriever_function.
    rewrite (retriever_found _ query (DatasetGenerator.policy_id row) doc);
      [done|done|].
    apply build_policy_dict_lookup_iff; [done|].
    split; [by eapply list_elem_of_lookup_2|].
    apply (serialized_row_id row doc).
    + rewrite Forall_forall in Htokens. apply Htokens.
      by eapply list_elem_of_lookup_2.
    + by eapply Forall2_lookup_lr.
Qed.

(** X23: load the generated data set through any loader that puts the
    identifier column first, one document per line: the store then has
    100 entries, and a query whose extracted identifier is that of a
    line resolves to exactly the document of that line. *)
Theorem generated_dataset_is_retrievable
    (entropy : nat → Z) (fake_name : nat → string)
    (date_after : nat → Z → string)
    (rows : list DatasetGenerator.Row) (docs : list Document) :
  DatasetGenerator.data entropy fake_name date_after = Some rows →
  Forall2 serializes rows docs →
  size (build_policy_dict docs) = 100
  ∧ ∀ k row doc vectorstore query,
      rows !! k = Some row → docs !! k = Some doc →
      policy_id_match query = Some (DatasetGenerator.policy_id row) →
      resolve vectorstore (build_policy_dict docs) query = [doc].
Proof.
  intros Hdata Hdocs.
  destruct (generated_dataset_store entropy fake_name date_after rows docs
              Hdata Hdocs) as (Hsize & _ & Hresolve).
  by split.
Qed.

(** The second query of the self-test of [utils.py] names [POL099]; the
    generated data set has that identifier, on its 99th line, so that on
    the generated file the query retrieves a document. *)
Example self_test_POL099_is_generated
    (entropy : nat → Z) (fake_name : nat → string)
    (date_after : nat → Z → string)
    (rows : list DatasetGenerator.Row) (docs : list Document)
    (vectorstore : VectorStore) :
  DatasetGenerator.data entropy fake_name date_after = Some rows →
  Forall2 serializes rows docs →
  ∃ doc, docs !! 98 = Some doc
         ∧ resolve vectorstore (build_policy_dict docs)
             "What is the status of policy POL099?" = [doc].
Proof.
  intros Hdata Hdocs.
  destruct (generated_dataset_store entropy fake_name date_after rows docs
              Hdata Hdocs) as (_ & Hids & Hresolve).
  assert ((DatasetGenerator.policy_id <$> rows) !! 98 = Some "POL099")
    as Hrow by (rewrite Hids; reflexivity).
  apply list_lookup_fmap_Some in Hrow as (row & Hid & Hrow).
  destruct (Forall2_lookup_l _ _ _ _ _ Hdocs Hrow) as (doc & Hdoc & _).
  exists doc. split; [done|].
  apply (Hresolve 98 row doc); [done|done|]. by rewrite <- Hid.
Qed.

(** * Work done per line read *)

Section SessionCounts.

Variable policy_id_dict : gmap string Document.
Variable vector_store : VectorStore.
Variable llm_standalone_query : list Message → string → option string.
Variable llm_answer :
  list Document → list Message → string → option string.

Local Abbreviation invoke :=
  (conversational_retrieval_chain_invoke policy_id_dict vector_store
     llm_standalone_query llm_answer).
Local Abbreviation loop :=
  (chat_loop policy_id_dict vector_store llm_standalone_query llm_answer).

Lemma invoke_counts input chat_history :
  (length (answers_of (invoke input chat_history).1)
   ≤ length (retrievals_of (invoke input chat_history).1) ≤ 1)%nat.
Proof.
  unfold conversational_retrieval_chain_invoke.
  destruct (llm_standalone_query chat_history input) as [query|];
    [|cbn; lia].
  destruct (get_custom_retriever_function _ _ query) as [docs log].
  cbn [fst]. change (?a :: ?b :: ?l ++ ?r)%list with ([a; b] ++ l ++ r)%list.
  rewrite !answers_of_app, !retrievals_of_app, answers_of_prints,
    retrievals_of_prints.
  destruct (llm_answer docs chat_history input); cbn; lia.
Qed.

(** X24: a session performs at most one retrieval per line read, and
    produces at most one answer per retrieval; it reads no more lines
    than the console supplies. *)
Theorem session_work_is_bounded_by_lines
    (inputs : list string) (chat_history : list Message) :
  let tr := trace (loop inputs chat_history) in
  (length (answers_of tr) ≤ length (retrievals_of tr)
   ≤ length (inputs_read tr))%nat
  ∧ (length (inputs_read tr) ≤ length inputs)%nat.
Proof.
  cbn zeta. revert chat_history.
  induction inputs as [|u inputs IH]; intros h; [cbn; lia|].
  destruct (exit_keyword u) eqn:Hexit.
  { rewrite loop_exit by done. cbn. lia. }
  pose proof (invoke_counts u h) as Hcount.
  pose proof (invoke_trace policy_id_dict vector_store llm_standalone_query
                llm_answer u h) as [Hread _].
  destruct (invoke u h) as [events [a|]] eqn:Hinv;
    cbn [fst] in Hcount, Hread.
  - rewrite (loop_turn _ _ _ _ _ _ _ _ _ Hexit Hinv). cbn zeta. cbn [trace].
    specialize (IH (h ++ [HumanMessage u; AIMessage a])%list).
    change (answers_of (EvInput u :: ?l)) with (answers_of l).
    change (retrievals_of (EvInput u :: ?l)) with (retrievals_of l).
    change (inputs_read (EvInput u :: ?l)) with (u :: inputs_read l).
    rewrite answers_of_app, retrievals_of_app, inputs_read_app, Hread.
    change (answers_of (EvPrint ?x :: ?l)) with (answers_of l).
    change (retrievals_of (EvPrint ?x :: ?l)) with (retrievals_of l).
    change (inputs_read (EvPrint ?x :: ?l)) with (inputs_read l).
    rewrite !length_app. cbn [app length]. lia.
  - rewrite (loop_raise _ _ _ _ _ _ _ _ Hexit Hinv). cbn [trace].
    change (answers_of (EvInput u :: ?l)) with (answers_of l).
    change (retrievals_of (EvInput u :: ?l)) with (retrievals_of l).
    change (inputs_read (EvInput u :: ?l)) with (u :: inputs_read l).
    rewrite Hread. cbn [length]. lia.
Qed.

End SessionCounts.

End Properties.

(** * Sample runs of the theorems

    The runs below are made with the digit table of Unicode 14.0. *)

#[local] Existing Instance unicode_14.

Lemma resolve_returns_stored_record_witness :
  let doc := mkDocument "policy_id: POL001
customer_name: Ann Lee
premium: 500" [("row", "0")] in
  let other := mkDocument "policy_id: POL١٢٣
premium: 700" [("row", "1")] in
  resolve (mkVectorStore (λ _, [])) {["POL001" := doc]}
    "What is the premium for policy pol001 or POL002?" = [doc]
  ∧ resolve (mkVectorStore (λ _, [])) {["POL١٢٣" := other]}
      "premium of pol١٢٣ or POL001?" = [other].
Proof.
  intros doc other. split.
  - apply (resolve_returns_stored_record _ _ _ 31).
    + apply first_occurrence_check; reflexivity.
    + reflexivity.
  - apply (resolve_returns_stored_record _ _ _ 11).
    + apply first_occurrence_check; reflexivity.
    + reflexivity.
Defined.

Lemma resolve_unknown_identifier_empty_witness :
  let doc := mkDocument "policy_id: POL001" [] in
  resolve (mkVectorStore (λ _, [doc])) {["POL001" := doc]}
    "What is the status of policy POL099?" = []
  ∧ resolve (mkVectorStore (λ _, [doc])) {["POL001" := doc]}
      "POL１２３ or POL001" = [].
Proof.
  intros doc. split.
  - apply (resolve_unknown_identifier_empty _ _ _ 29).
    + apply first_occurrence_check; reflexivity.
    + reflexivity.
  - apply (resolve_unknown_identifier_empty _ _ _ 0).
    + apply first_occurrence_check; reflexivity.
    + reflexivity.
Defined.

Lemma resolve_without_identifier_empty_witness :
  let doc := mkDocument "policy_id: POL001
policy_type: Auto" [] in
  resolve (mkVectorStore (λ _, [doc])) {["POL001" := doc]}
    "Tell me about auto insurance" = []
  ∧ resolve (mkVectorStore (λ _, [doc])) {["POL001" := doc]}
      "POL00¹, POL 001 and POL01" = [].
Proof.
  intros doc. split.
  - apply resolve_without_identifier_empty.
    apply no_occurrence_check. reflexivity.
  - apply resolve_without_identifier_empty.
    apply no_occurrence_check. reflexivity.
Defined.

Lemma duplicate_identifier_last_row_wins_witness :
  let d1 := mkDocument "policy_id: POL001
customer_name: Ann Lee" [("row", "0")] in
  let d2 := mkDocument "policy_id: POL002
customer_name: Raj Rao" [("row", "1")] in
  let d3 := mkDocument "policy_id: POL001
customer_name: Bo Chen" [("row", "2")] in
  let d4 := mkDocument "policy_id: POL003
customer_name: Cy Diaz" [("row", "3")] in
  build_policy_dict [d1; d2; d3; d4] !! "POL001" = Some d3.
Proof.
  intros d1 d2 d3 d4.
  refine (proj1 (duplicate_identifier_last_row_wins
                   [d1; d2] [d4] d3 "POL001" _ _)).
  - reflexivity.
  - repeat constructor. discriminate.
Defined.

Lemma malformed_rows_are_skipped_witness :
  let good := mkDocument "policy_id: POL007
premium: 300" [("row", "0")] in
  let bad := mkDocument "policy_id: POLICY7
premium: 900" [("row", "1")] in
  let other := mkDocument "policy_id: POL١٢٣
premium: 100" [("row", "2")] in
  let fs := mkFileSystem (λ _, true) (λ _, [good; bad; other]) in
  ∃ store log,
    load_and_prepare_data fs "insurance_policies_sample_100_final.csv"
    = (Returned ([good; bad; other], store), log)
    ∧ store = build_policy_dict [good; other]
    ∧ store !! "POL١٢٣" = Some other.
Proof.
  intros good bad other fs.
  destruct (malformed_rows_are_skipped fs
              "insurance_policies_sample_100_final.csv" eq_refl)
    as (store & log & Hret & _ & _ & Hskip).
  exists store, log. split; [exact Hret|].
  assert (store = build_policy_dict [good; other]) as ->.
  { apply (Hskip [good] bad [other]); [reflexivity|].
    apply policy_id_of_None. reflexivity. }
  split; reflexivity.
Defined.

Lemma resolve_returns_only_three_digit_records_witness :
  let long := mkDocument "policy_id: POL1234
premium: 700" [("row", "0")] in
  let short := mkDocument "policy_id: POL123
premium: 200" [("row", "1")] in
  build_policy_dict [long; short] !! "POL1234" = Some long
  ∧ resolve (mkVectorStore (λ _, [long])) (build_policy_dict [long; short])
      "premium of POL1234?" = [short]
  ∧ long ∉ resolve (mkVectorStore (λ _, [long]))
             (build_policy_dict [long; short]) "premium of POL1234?".
Proof.
  intros long short. split; [reflexivity|]. split; [reflexivity|].
  apply (proj1 (proj2 (resolve_returns_only_three_digit_records
           (mkVectorStore (λ _, [long])) [long; short]
           "premium of POL1234?")) 4 "1234" long).
  - reflexivity.
  - reflexivity.
  - lia.
Defined.

Lemma conversation_state_after_turns_witness :
  let doc := mkDocument "policy_id: POL001
premium: 500" [("row", "0")] in
  let rewrite := λ (_ : list Message) (input : string), Some input in
  let generate := λ (context : list Document) (_ : list Message)
                    (_ : string),
    match context with
    | d :: _ => Some (page_content d)
    | [] => None
    end in
  let s := chat_session {["POL001" := doc]} (mkVectorStore (λ _, []))
             rewrite generate
             ["premium of pol001?"; "and of POL001?"; "hi"; "never read"] in
  [HumanMessage "premium of pol001?";
   AIMessage "policy_id: POL001
premium: 500"] = take 2 (final_history s)
  ∧ outcome s = ChainError.
Proof.
  intros doc rewrite generate s. split; [|reflexivity].
  apply (proj1 (proj2 (proj2 (conversation_state_after_turns
           {["POL001" := doc]} (mkVectorStore (λ _, [])) rewrite generate
           ["premium of pol001?"; "and of POL001?"; "hi"; "never read"])))
         1).
  reflexivity.
Defined.

Lemma exit_keyword_closes_loop_witness :
  let history := [HumanMessage "hi"; AIMessage "Hello!"] in
  let doc := mkDocument "policy_id: POL001
premium: 500" [("row", "0")] in
  let run := chat_loop {["POL001" := doc]} (mkVectorStore (λ _, []))
               (λ _ input, Some input)
               (λ context _ _, Some (pretty (length context))) in
  (let s := run ["Exit"; "premium of POL001?"] history in
   outcome s = Closed ∧ final_history s = history
   ∧ existsb is_chain_call (trace s) = false)
  ∧ run ["premium of pol001?"; "quit"] history
    = mkSession Closed
        [HumanMessage "hi"; AIMessage "Hello!";
         HumanMessage "premium of pol001?"; AIMessage "1"]
        [EvInput "premium of pol001?";
         EvRewrite history "premium of pol001?" (Some "premium of pol001?");
         EvRetrieve "premium of pol001?" [doc];
         EvPrint "[Retrieval]: Directly retrieved policy: POL001";
         EvGenerate [doc] history "premium of pol001?" (Some "1");
         EvPrint "[Chatbot]: 1";
         EvInput "quit";
         EvPrint "[Chatbot]: Goodbye!"].
Proof.
  intros history doc run. split.
  - intros s.
    destruct (proj1 (exit_keyword_closes_loop {["POL001" := doc]}
                       (mkVectorStore (λ _, []))
                       (λ _ input, Some input)
                       (λ context _ _, Some (pretty (length context)))
                       "Exit" ["premium of POL001?"] history) eq_refl)
      as (Hclosed & Hstate & Hcalls & _).
    auto.
  - destruct (proj2 (exit_keyword_closes_loop {["POL001" := doc]}
                       (mkVectorStore (λ _, []))
                       (λ _ input, Some input)
                       (λ context _ _, Some (pretty (length context)))
                       "premium of pol001?" ["quit"] history) eq_refl)
      as (_ & _ & _ & Hturn).
    exact Hturn.
Defined.

Lemma retriever_ignores_letter_case_witness :
  let doc := mkDocument "policy_id: POL001
premium: 500" [] in
  get_custom_retriever_function (mkVectorStore (λ _, []))
    {["POL001" := doc]} "Premium of Pol001?"
  = get_custom_retriever_function (mkVectorStore (λ _, []))
      {["POL001" := doc]} "PREMIUM OF pOL001?".
Proof.
  intros doc. by apply retriever_ignores_letter_case.
Defined.

Lemma classifier_fixes_its_output_witness :
  policy_id_match "POL042" = Some "POL042".
Proof.
  apply (classifier_fixes_its_output "renewal date of pol0421, please").
  reflexivity.
Defined.

Lemma classifier_ignores_text_after_token_witness :
  policy_id_match ("is POL007 active?" +:+ " and POL001, POL002?")
  = Some "POL007".
Proof. by apply classifier_ignores_text_after_token. Defined.

Lemma classifier_truncates_long_identifier_witness :
  policy_id_match ("POL" +:+ "1234" +:+ " is due when?") = Some "POL123".
Proof.
  refine (classifier_truncates_long_identifier "1234" " is due when?"
            eq_refl _).
  cbn. lia.
Defined.

Lemma resolve_returns_the_named_row_witness :
  let d1 := mkDocument "policy_id: POL001
premium: 500" [] in
  let d2 := mkDocument "policy_id: POL002
premium: 900" [] in
  policy_id_of d2 = policy_id_match "premium of pol002, not POL001".
Proof.
  intros d1 d2.
  refine (proj2 (resolve_returns_the_named_row (mkVectorStore (λ _, [d1]))
                   [d1; d2] "premium of pol002, not POL001" d2 _)).
  apply list_elem_of_singleton. reflexivity.
Defined.

Lemma resolve_finds_last_row_witness :
  let d1 := mkDocument "policy_id: POL001
premium: 500" [] in
  let d2 := mkDocument "policy_id: POL002
premium: 900" [] in
  let d3 := mkDocument "policy_id: POL001
premium: 650" [] in
  resolve (mkVectorStore (λ _, [])) (build_policy_dict [d1; d2; d3])
    "premium of pol001?" = [d3].
Proof.
  intros d1 d2 d3.
  apply (resolve_finds_last_row _ [d1; d2] [] d3 _ "POL001");
    [reflexivity | reflexivity | constructor].
Defined.

Lemma store_keys_are_POL_digits_witness :
  ∃ n ds, "POL0420" = "POL" +:+ ds ∧ digits (S n) ds = true.
Proof.
  apply (store_keys_are_POL_digits
           [mkDocument "note: pol9; policy_id: POL0420x7" []] "POL0420"
           (mkDocument "note: pol9; policy_id: POL0420x7" [])).
  reflexivity.
Defined.

Lemma store_independent_of_row_order_witness :
  let d1 := mkDocument "policy_id: POL001
premium: 500" [] in
  let d2 := mkDocument "policy_id: POL002
premium: 900" [] in
  let d3 := mkDocument "customer_name: no id here" [] in
  build_policy_dict [d1; d2; d3] = build_policy_dict [d3; d2; d1].
Proof.
  intros d1 d2 d3. apply store_independent_of_row_order.
  - repeat constructor; vm_compute; intros H; inversion H as [|? ? ? H'];
      inversion H'.
  - apply (Permutation_trans (l' := [d2; d3; d1])).
    + apply (Permutation_trans (l' := [d2; d1; d3]));
        [constructor | repeat constructor].
    + apply (Permutation_trans (l' := [d3; d2; d1])); [constructor|done].
Defined.

Lemma identifier_of_serialized_row_witness :
  policy_id_of (mkDocument ("policy_id: POL" +:+ "017" +:+ "
customer_name: Ann Lee
premium: 300") [("row", "16")]) = Some "POL017".
Proof.
  apply (identifier_of_serialized_row 3); [done|reflexivity|reflexivity].
Defined.

Lemma session_without_failures_witness :
  let s := chat_session ∅ (mkVectorStore (λ _, []))
             (λ _ input, Some input) (λ _ _ _, Some "ok")
             ["hi"; "POL001?"; "Quit"; "POL002?"] in
  length (final_history s) = 4 ∧ outcome s = Closed.
Proof.
  intros s.
  apply (session_without_failures ∅ (mkVectorStore (λ _, []))
           (λ _ input, Some input) (λ _ _ _, Some "ok")
           ["hi"; "POL001?"; "Quit"; "POL002?"]); eauto.
Defined.

Lemma session_continues_after_batch_witness :
  let run := chat_loop ∅ (mkVectorStore (λ _, []))
               (λ _ input, Some input) (λ _ _ _, Some "ok") in
  final_history (run ["hi"; "POL001?"; "exit"] [])
  = final_history
      (run ["POL001?"; "exit"] [HumanMessage "hi"; AIMessage "ok"]).
Proof.
  intros run.
  exact (f_equal final_history
           (session_continues_after_batch ∅ (mkVectorStore (λ _, []))
              (λ _ input, Some input) (λ _ _ _, Some "ok")
              ["hi"] ["POL001?"; "exit"] [] eq_refl)).
Defined.

Lemma chatbot_context_is_the_named_row_witness :
  let d1 := mkDocument "policy_id: POL001
premium: 500" [] in
  let d2 := mkDocument "policy_id: POL002
premium: 900" [] in
  let fs := mkFileSystem (λ _, true) (λ _, [d1; d2]) in
  let pf := mkPlatform (λ _, ["chroma.sqlite3"])
              (λ _ _, mkVectorStore (λ _, [d1; d2]))
              (λ _ _ _, mkVectorStore (λ _, [])) in
  let s := chat_session (build_policy_dict [d1; d2])
             (mkVectorStore (λ _, [d1; d2]))
             (λ _ input, Some input)
             (λ context _ _, Some "answer")
             ["premium of pol002?"; "hello"; "exit"] in
  contexts_of (trace s) = [[d2]; []].
Proof.
  intros d1 d2 fs pf s.
  rewrite (proj1 (chatbot_context_is_the_named_row fs pf "gemini-2.5-pro"
                    (λ _ input, Some input) (λ context _ _, Some "answer")
                    ["premium of pol002?"; "hello"; "exit"] s eq_refl)).
  reflexivity.
Defined.

Lemma py_round_nearest_multiple_witness :
  DatasetGenerator.py_round 2500 (-3) = 2000%Z
  ∧ DatasetGenerator.py_round 3500 (-3) = 4000%Z
  ∧ (25000 ≤ DatasetGenerator.py_round 25499 (-3) ≤ 150000)%Z.
Proof.
  split; [reflexivity|]. split; [reflexivity|].
  apply (proj2 (proj2 (proj2 (proj2
           (py_round_nearest_multiple 25499 (-3) eq_refl))))); done.
Defined.

Lemma generated_dataset_is_retrievable_witness :
  let entropy := λ n : nat, (Z.of_nat n * 7919 + 13)%Z in
  let fake_name := λ i : nat, "Customer " +:+ pretty i in
  let date_after := λ (i : nat) (days : Z), "day+" +:+ pretty days in
  let serialize := λ row : DatasetGenerator.Row,
    mkDocument
      ("policy_id: " +:+ DatasetGenerator.policy_id row +:+ String "010"
         ("customer_name: " +:+ DatasetGenerator.customer_name row
            +:+ String "010"
         ("policy_type: " +:+ DatasetGenerator.policy_type row
            +:+ String "010"
         ("coverage_amount: "
            +:+ pretty (DatasetGenerator.coverage_amount row)
            +:+ String "010"
         ("premium: " +:+ pretty (DatasetGenerator.premium row)
            +:+ String "010"
         ("renewal_date: " +:+ DatasetGenerator.renewal_date row))))))
      [("source", "insurance_policies_sample_100_final.csv")] in
  let rows := default [] (DatasetGenerator.data entropy fake_name date_after) in
  size (build_policy_dict (serialize <$> rows)) = 100.
Proof.
  intros entropy fake_name date_after serialize rows.
  refine (proj1 (generated_dataset_is_retrievable entropy fake_name
                   date_after rows (serialize <$> rows) _ _)).
  - vm_compute. reflexivity.
  - apply Forall2_fmap_r, Forall_Forall2_diag, Forall_forall.
    intros row _. eexists. reflexivity.
Defined.

(** ** Decimal digits outside ASCII

    [\d] takes the decimal digits of every script, and no other
    character: not the superscript two or a Roman numeral, which are
    numbers for [str.isdigit] or [str.isnumeric] only.  The classifier
    reads a token written with Arabic-Indic digits, and a token written
    with fullwidth digits is the leftmost one of its query, so that the
    identifier looked up is this one and not a later one in ASCII
    digits. *)

Example utf8_encode_digits :
  utf8_encode 1633 = "١" ∧ utf8_encode 65297 = "１"
  ∧ utf8_encode 120783 = "𝟏" ∧ utf8_encode 49 = "1".
Proof. repeat split. Qed.

Example leading_digit_scripts :
  leading_digit "١٢٣" = Some ("١", "٢٣")
  ∧ leading_digit "𝟏x" = Some ("𝟏", "x")
  ∧ leading_digit "²" = None ∧ leading_digit "Ⅷ" = None
  ∧ leading_digit "x1" = None.
Proof. repeat split. Qed.

Example policy_id_match_arabic_indic_digits :
  policy_id_match "POL١٢٣" = Some "POL١٢٣".
Proof. reflexivity. Qed.

Example resolve_fullwidth_token_comes_first :
  let record := mkDocument "policy_id: POL001" [] in
  policy_id_match "POL１２３ or POL001" = Some "POL１２３"
  ∧ resolve (mkVectorStore (λ _, [])) {["POL001" := record]}
      "POL１２３ or POL001" = [].
Proof. split; reflexivity. Qed.

(** The store builder keeps a row whose identifier is written with such
    digits, and the greedy [\d+] runs over digits of several scripts. *)
Example policy_id_of_arabic_indic_digits :
  policy_id_of (mkDocument "policy_id: POL١٢٣" []) = Some "POL١٢٣"
  ∧ ¬ malformed (mkDocument "policy_id: POL١٢٣" [])
  ∧ policy_id_of (mkDocument "policy_id: POL12١٢٣" []) = Some "POL12١٢٣".
Proof.
  split; [reflexivity|]. split; [|reflexivity].
  intros Hbad%policy_id_of_None. discriminate.
Qed.

(** A letter that Python upper-cases to ASCII letters does not complete
    a token: [POﬂ123] is upper-cased to [POFL123]. *)
Example policy_id_match_ligature :
  policy_id_match "POﬂ123" = None.
Proof. reflexivity. Qed.
